(** * pydash.objects: a shallow embedding over an explicit object store

    The Python module [pydash/objects.py] works on dicts and lists that are
    shared by reference and updated in place.  The embedding therefore keeps
    an explicit store of container objects; a Python value is either an
    immediate scalar or a reference into the store.

    Modelled universe: [None], booleans, integers, floats, strings,
    callables, lists and dicts.  Tuples, sets and user classes are left out.
    Scalars carry no identity, with one exception that Python makes visible:
    the store has a single not-a-number object ([math.nan]), which a dict
    finds again through CPython's identity shortcut.

    Callables are opaque: callable number [f] is interpreted by the section
    variable [call].  A call may read the store and may update a private
    state of type [State] (which makes every invocation observable), but it
    neither writes to the store nor raises.

    The interpreter's stack is finite: recursive functions take the number
    of frames they may still nest and raise [RecursionError] beyond it. *)

From Stdlib Require Import ZArith String List Bool Lia.
From Stdlib Require Import Floats.SpecFloat.
From stdpp Require Import base tactics option list.

#[local] Set Warnings "-register-all".

Local Open Scope Z_scope.
Local Open Scope list_scope.

(** ** Values and the object store *)

Abbreviation addr := nat (only parsing).

Inductive value : Type :=
| VNone
| VBool (b : bool)
| VInt (n : Z)
| VFloat (x : spec_float)
| VStr (s : string)
| VFunc (f : nat)
| VRef (a : addr).

Inductive object : Type :=
| OList (items : list value)
| ODict (entries : list (value * value)).

Abbreviation heap := (list object).

Inductive exn : Type :=
| TypeError
| IndexError
| AttributeError
| RecursionError.

Inductive result (A : Type) : Type :=
| Ok (a : A)
| Raise (e : exn).

Arguments Ok {A} a.
Arguments Raise {A} e.

Definition bind {A B : Type} (m : result A) (k : A -> result B) : result B :=
  match m with
  | Ok a => k a
  | Raise e => Raise e
  end.

Notation "'do' x <- m ; k" := (bind m (fun x => k))
  (at level 10, x pattern, m at level 100, k at level 200).

(** Allocation of a new container: it receives the next free address. *)
Definition alloc (h : heap) (o : object) : value * heap :=
  (VRef (length h), h ++ [o]).

(** ** Hashing and equality of dict keys

    Python looks a key up by hash and [==]: [True], [1] and [1.0] are one
    key.  Every hashable value is mapped to a normal form; two values are
    the same key exactly when their normal forms coincide.  A finite number
    [m * 2^e] is normalised by moving the powers of two out of [m]. *)

Inductive hkey : Type :=
| KNone
| KNum (m e : Z)
| KInf (neg : bool)
| KNaN
| KStr (s : string)
| KFunc (f : nat).

Fixpoint odd_part (p : positive) : positive * Z :=
  match p with
  | xO q => let '(o, k) := odd_part q in (o, Z.succ k)
  | _ => (p, 0)
  end.

Definition num_key (neg : bool) (m : positive) (e : Z) : hkey :=
  let '(o, k) := odd_part m in
  KNum (if neg then Zneg o else Zpos o) (e + k).

Definition int_key (n : Z) : hkey :=
  match n with
  | Z0 => KNum 0 0
  | Zpos p => num_key false p 0
  | Zneg p => num_key true p 0
  end.

Definition float_key (x : spec_float) : hkey :=
  match x with
  | S754_zero _ => KNum 0 0
  | S754_infinity s => KInf s
  | S754_nan => KNaN
  | S754_finite s m e => num_key s m e
  end.

(** [None] stands for "unhashable" (lists and dicts). *)
Definition to_key (v : value) : option hkey :=
  match v with
  | VNone => Some KNone
  | VBool b => Some (int_key (if b then 1 else 0))
  | VInt n => Some (int_key n)
  | VFloat x => Some (float_key x)
  | VStr s => Some (KStr s)
  | VFunc f => Some (KFunc f)
  | VRef _ => None
  end.

Definition hashable (v : value) : bool :=
  match to_key v with Some _ => true | None => false end.

Definition hkey_eqb (x y : hkey) : bool :=
  match x, y with
  | KNone, KNone => true
  | KNum m e, KNum m' e' => Z.eqb m m' && Z.eqb e e'
  | KInf s, KInf s' => Bool.eqb s s'
  | KNaN, KNaN => true
  | KStr s, KStr s' => String.eqb s s'
  | KFunc f, KFunc f' => Nat.eqb f f'
  | _, _ => false
  end.

Definition same_key (a b : value) : bool :=
  match to_key a, to_key b with
  | Some x, Some y => hkey_eqb x y
  | _, _ => false
  end.

(** ** Dicts as insertion-ordered association lists *)

Fixpoint dict_get (d : list (value * value)) (k : value) : option value :=
  match d with
  | [] => None
  | (k', v) :: r => if same_key k' k then Some v else dict_get r k
  end.

(** [d[k] = v]: an existing key keeps its place (and its key object), a new
    key goes to the end. *)
Fixpoint dict_set (d : list (value * value)) (k v : value)
  : list (value * value) :=
  match d with
  | [] => [(k, v)]
  | (k', v') :: r =>
      if same_key k' k then (k', v) :: r else (k', v') :: dict_set r k v
  end.

Definition dict_setitem (d : list (value * value)) (k v : value)
  : result (list (value * value)) :=
  if hashable k then Ok (dict_set d k v) else Raise TypeError.

(** [dict(pairs)]: the pairs are inserted one after the other. *)
Fixpoint dict_of_pairs (acc pairs : list (value * value))
  : result (list (value * value)) :=
  match pairs with
  | [] => Ok acc
  | (k, v) :: r => do acc' <- dict_setitem acc k v; dict_of_pairs acc' r
  end.

(** ** Lists *)

(** An integer usable as a list index ([bool] is a subclass of [int]). *)
Definition index_of (k : value) : option Z :=
  match k with
  | VInt n => Some n
  | VBool b => Some (if b then 1 else 0)
  | _ => None
  end.

(** Python's index resolution: a negative index counts from the end. *)
Definition resolve_index (len : nat) (i : Z) : Z :=
  if i <? 0 then i + Z.of_nat len else i.

Definition list_getitem (l : list value) (i : Z) : option value :=
  let j := resolve_index (length l) i in
  if j <? 0 then None else l !! Z.to_nat j.

(** [l[i] = v] of Python: the slot has to exist. *)
Definition list_setitem (l : list value) (i : Z) (v : value)
  : result (list value) :=
  let j := resolve_index (length l) i in
  if (0 <=? j) && (j <? Z.of_nat (length l))
  then Ok (<[Z.to_nat j := v]> l)
  else Raise IndexError.

(** ** Truthiness and type tests *)

Definition truthy (h : heap) (v : value) : bool :=
  match v with
  | VNone => false
  | VBool b => b
  | VInt n => negb (n =? 0)
  | VFloat x => match x with S754_zero _ => false | _ => true end
  | VStr s => negb (String.eqb s EmptyString)
  | VFunc _ => true
  | VRef a =>
      match h !! a with
      | Some (OList l) => negb (Nat.eqb (length l) 0)
      | Some (ODict d) => negb (Nat.eqb (length d) 0)
      | None => true
      end
  end.

Definition isinstance_list (h : heap) (v : value) : bool :=
  match v with
  | VRef a => match h !! a with Some (OList _) => true | _ => false end
  | _ => false
  end.

Definition isinstance_dict (h : heap) (v : value) : bool :=
  match v with
  | VRef a => match h !! a with Some (ODict _) => true | _ => false end
  | _ => false
  end.

Definition callable (v : value) : bool :=
  match v with VFunc _ => true | _ => false end.

Definition is_None (v : value) : bool :=
  match v with VNone => true | _ => false end.

(** [v is False] *)
Definition is_False (v : value) : bool :=
  match v with VBool false => true | _ => false end.

(** ** Helpers of [pydash/utils.py] and [pydash/arrays.py] *)

(** Python's [enumerate], counting from [i]. *)
Fixpoint enumerate (i : nat) (l : list value) : list (value * value) :=
  match l with
  | [] => []
  | x :: r => (VInt (Z.of_nat i), x) :: enumerate (S i) r
  end.

(** Modelled from the spec: [iterate] of [pydash/utils.py] (section 4.1,
    Generic Iterator).  A list yields its elements keyed [0 .. n-1] in
    order, a dict yields its entries in iteration order, anything else is a
    [TypeError].  The pairs are those of the collection at the moment the
    iteration starts; none of the loops below resizes the collection it
    walks unless source and destination share storage. *)
Definition iterate (h : heap) (c : value) : result (list (value * value)) :=
  match c with
  | VRef a =>
      match h !! a with
      | Some (OList l) => Ok (enumerate 0 l)
      | Some (ODict d) => Ok d
      | None => Raise TypeError
      end
  | _ => Raise TypeError
  end.

(** Modelled from the spec: [get_item] of [pydash/utils.py] (section 4.4,
    Item Accessor), for the plain keys that [update] hands to it: a key
    lookup in a dict, an index lookup in a list, and [default] whenever the
    key or index is missing.  It never raises. *)
Definition get_item (h : heap) (obj key default : value) : value :=
  match obj with
  | VRef a =>
      match h !! a with
      | Some (ODict d) =>
          match dict_get d key with Some v => v | None => default end
      | Some (OList l) =>
          match index_of key with
          | Some i =>
              match list_getitem l i with Some v => v | None => default end
          | None => default
          end
      | None => default
      end
  | _ => default
  end.

(** Storing at index [j >= 0] of a list, creating the slot when it is
    missing (the gap, if any, is filled with [None]). *)
Definition list_store (l : list value) (j : nat) (v : value) : list value :=
  if (j <? length l)%nat then <[j := v]> l
  else l ++ replicate (j - length l) VNone ++ [v].

(** Modelled from the spec: [set_item] of [pydash/utils.py] (section 4.4),
    for plain keys: it assigns in place and creates the destination slot as
    needed.  Writing into something whose shape does not fit the key is a
    typed error (section 7). *)
Definition set_item (h : heap) (obj key v : value) : result heap :=
  match obj with
  | VRef a =>
      match h !! a with
      | Some (ODict d) =>
          do d' <- dict_setitem d key v; Ok (<[a := ODict d']> h)
      | Some (OList l) =>
          match index_of key with
          | Some i =>
              let j := resolve_index (length l) i in
              if j <? 0 then Raise IndexError
              else Ok (<[a := OList (list_store l (Z.to_nat j) v)]> h)
          | None => Raise TypeError
          end
      | None => Raise TypeError
      end
  | _ => Raise TypeError
  end.

(** Python's [==] on scalars and on containers.  Inside a container the
    elements are compared by identity first. *)
Definition scalar_eq (a b : value) : bool :=
  match to_key a, to_key b with
  | Some KNaN, _ | _, Some KNaN => false
  | Some x, Some y => hkey_eqb x y
  | _, _ => false
  end.

Definition same_object (a b : value) : bool :=
  match a, b with
  | VRef x, VRef y => Nat.eqb x y
  | VFloat S754_nan, VFloat S754_nan => true
  | _, _ => false
  end.

Fixpoint all_ok {A : Type} (p : A -> result bool) (l : list A) : result bool :=
  match l with
  | [] => Ok true
  | x :: r => do b <- p x; if b then all_ok p r else Ok false
  end.

Fixpoint py_eq (depth : nat) (h : heap) (a b : value) {struct depth}
  : result bool :=
  match a, b with
  | VRef x, VRef y =>
      match depth with
      | O => Raise RecursionError
      | S d =>
          let item_eq u w :=
            if same_object u w then Ok true else py_eq d h u w in
          match h !! x, h !! y with
          | Some (OList l1), Some (OList l2) =>
              if Nat.eqb (length l1) (length l2)
              then all_ok (fun '(u, w) => item_eq u w) (combine l1 l2)
              else Ok false
          | Some (ODict d1), Some (ODict d2) =>
              if Nat.eqb (length d1) (length d2)
              then all_ok (fun '(k, u) =>
                             match dict_get d2 k with
                             | Some w => item_eq u w
                             | None => Ok false
                             end) d1
              else Ok false
          | _, _ => Ok false
          end
      end
  | VRef _, _ | _, VRef _ => Ok false
  | _, _ => Ok (scalar_eq a b)
  end.

(** Modelled from the spec: [flatten] of [pydash/arrays.py] (section 6),
    which turns a list of lists into a flat list.  The docstrings of [pick]
    and [omit] allow property names to come as lists among the variadic
    arguments, so nested lists are flattened all the way down. *)
Fixpoint flatten (depth : nat) (h : heap) (xs : list value) {struct depth}
  : result (list value) :=
  match depth with
  | O => Raise RecursionError
  | S d =>
      (fix go (xs : list value) : result (list value) :=
         match xs with
         | [] => Ok []
         | x :: r =>
             do fx <- match x with
                      | VRef a =>
                          match h !! a with
                          | Some (OList l) => flatten d h l
                          | _ => Ok [x]
                          end
                      | _ => Ok [x]
                      end;
             do fr <- go r;
             Ok (fx ++ fr)
         end) xs
  end.

(** ** The standard library's [copy] module *)

(** [copy.copy]: a new container with the same elements; scalars are
    returned as they are. *)
Definition copy_copy (h : heap) (v : value) : value * heap :=
  match v with
  | VRef a =>
      match h !! a with
      | Some o => alloc h o
      | None => (v, h)
      end
  | _ => (v, h)
  end.

Abbreviation memo := (list (nat * nat)).

Fixpoint memo_get (m : memo) (a : addr) : option addr :=
  match m with
  | [] => None
  | (x, y) :: r => if Nat.eqb x a then Some y else memo_get r a
  end.

(** Copying the elements of a container one after the other, the memo
    and the store being passed along. *)
Fixpoint copy_all (rec : value -> memo -> heap -> result (value * memo * heap))
  (xs : list value) (m : memo) (h : heap)
  : result (list value * memo * heap) :=
  match xs with
  | [] => Ok ([], m, h)
  | x :: r =>
      do (x', m1, h1) <- rec x m h;
      do (r', m2, h2) <- copy_all rec r m1 h1;
      Ok (x' :: r', m2, h2)
  end.

(** [copy.deepcopy] with its memo.  A container that was not met before
    gets its copy allocated (empty) and recorded in the memo first, its
    elements are copied next, and the copy is filled; nothing reads the copy
    in between.  Dict keys are scalars and are copied as themselves. *)
Fixpoint deepcopy (depth : nat) (v : value) (m : memo) (h : heap)
  {struct depth} : result (value * memo * heap) :=
  match v with
  | VRef a =>
      match memo_get m a with
      | Some b => Ok (VRef b, m, h)
      | None =>
          match depth with
          | O => Raise RecursionError
          | S d =>
              let b := length h in
              match h !! a with
              | Some (OList l) =>
                  do (l', m', h') <-
                     copy_all (deepcopy d) l ((a, b) :: m) (h ++ [OList []]);
                  Ok (VRef b, m', <[b := OList l']> h')
              | Some (ODict e) =>
                  do (vs, m', h') <-
                     copy_all (deepcopy d) (map snd e) ((a, b) :: m)
                       (h ++ [ODict []]);
                  Ok (VRef b, m', <[b := ODict (combine (map fst e) vs)]> h')
              | None => Raise TypeError
              end
          end
      end
  | _ => Ok (v, m, h)
  end.

(** Modelled from the spec: [identity] of [pydash/utilities.py] (section
    6), [identity(x) -> x], the default callback of [clone]. *)
Definition identity (v : value) : value := v.

(** ** Python's item protocol on a stored object *)

(** [obj[key] = v] *)
Definition setitem (h : heap) (obj key v : value) : result heap :=
  match obj with
  | VRef a =>
      match h !! a with
      | Some (ODict d) =>
          do d' <- dict_setitem d key v; Ok (<[a := ODict d']> h)
      | Some (OList l) =>
          match index_of key with
          | Some i => do l' <- list_setitem l i v; Ok (<[a := OList l']> h)
          | None => Raise TypeError
          end
      | None => Raise TypeError
      end
  | _ => Raise TypeError
  end.

(** [obj.get(key)]: only a dict has the method. *)
Definition dict_method_get (h : heap) (obj key : value) : result value :=
  match obj with
  | VRef a =>
      match h !! a with
      | Some (ODict d) =>
          if hashable key
          then Ok (match dict_get d key with Some v => v | None => VNone end)
          else Raise TypeError
      | _ => Raise AttributeError
      end
  | _ => Raise AttributeError
  end.

(** Modelled from the spec: [iteritems] of [pydash/_compat.py], one of the
    compatibility shims of section 1; [assign] walks the [(key, value)]
    pairs of each source with it (section 4.5).  It is the item iterator of
    a dict, and other values do not have one. *)
Definition iteritems (h : heap) (source : value)
  : result (list (value * value)) :=
  match source with
  | VRef a =>
      match h !! a with
      | Some (ODict d) => Ok d
      | _ => Raise AttributeError
      end
  | _ => Raise AttributeError
  end.

(** [kargs.get(name)] on the keyword arguments of a call. *)
Fixpoint kargs_get (kargs : list (string * value)) (name : string) : value :=
  match kargs with
  | [] => VNone
  | (n, v) :: r => if String.eqb n name then v else kargs_get r name
  end.

(** ** Sample callables and stores for the worked examples *)

(** Three callables over a call counter: number 0 returns 0, number 1
    returns its first argument, any other one tells whether its second
    argument is the key ['a']. *)
Definition sample_call (f : nat) (args : list value) (h : heap) (n : nat)
  : value * nat :=
  match f with
  | 0%nat => (VInt 0, S n)
  | 1%nat => (hd VNone args, S n)
  | _ =>
      (VBool match args with
             | _ :: k :: _ => same_key k (VStr "a")
             | _ => false
             end, S n)
  end.

Definition sample_argcount (f : nat) : nat :=
  match f with
  | 0%nat => 2%nat
  | 1%nat => 1%nat
  | _ => 3%nat
  end.

(** [{'a': [1, 2]}] at address 0 and [{'a': [9]}] at address 2. *)
Definition sample_store : heap :=
  [ODict [(VStr "a", VRef 1)]; OList [VInt 1; VInt 2];
   ODict [(VStr "a", VRef 3)]; OList [VInt 9]].



(** [[0, '', None, False, 7]] *)
Definition sample_falsy : heap :=
  [OList [VInt 0; VStr EmptyString; VNone; VBool false; VInt 7]].

(** [{'a': 0, 'b': 1, 'c': 1}] *)
Definition sample_abc : heap :=
  [ODict [(VStr "a", VInt 0); (VStr "b", VInt 1); (VStr "c", VInt 1)]].

(** [{'a': 1, 'b': 2}] *)
Definition sample_ab : heap :=
  [ODict [(VStr "a", VInt 1); (VStr "b", VInt 2)]].

(** [{'a': 1}] at address 0, [{'a': 2, 'b': 3}] at address 1 and
    [{'b': 4, 'c': 5}] at address 2. *)
Definition sample_sources : heap :=
  [ODict [(VStr "a", VInt 1)];
   ODict [(VStr "a", VInt 2); (VStr "b", VInt 3)];
   ODict [(VStr "b", VInt 4); (VStr "c", VInt 5)]].

(** [{'f': <function 0>, 'n': 1}] at address 0 and [[7, 8]] at address 1. *)
Definition sample_funcs : heap :=
  [ODict [(VStr "f", VFunc 0); (VStr "n", VInt 1)]; OList [VInt 7; VInt 8]].

(** [[1, 2, 3]] at address 0 and [[9]] at address 1. *)
Definition sample_lists : heap :=
  [OList [VInt 1; VInt 2; VInt 3]; OList [VInt 9]].

(** [{}] at address 0, [{'k': {'x': 1}}] at address 2 (its inner dict at
    address 1) and [{'k': {'y': 2}}] at address 4 (its inner dict at
    address 3). *)
Definition sample_nested : heap :=
  [ODict []; ODict [(VStr "x", VInt 1)]; ODict [(VStr "k", VRef 1)];
   ODict [(VStr "y", VInt 2)]; ODict [(VStr "k", VRef 3)]].

(** At address 0 a list [x = [y, y, 5, x]] that holds the list [y = [1]]
    of address 1 twice, and itself. *)
Definition sample_shared : heap :=
  [OList [VRef 1; VRef 1; VInt 5; VRef 0]; OList [VInt 1]].

(** Two dicts that hold themselves under ['k']. *)
Definition sample_cyclic : heap :=
  [ODict [(VStr "k", VRef 0)]; ODict [(VStr "k", VRef 1)]].


Section Objects.

#[local] Set Default Proof Using "Type".

Context {State : Type}.

(** [call f args h s]: what callable number [f] returns on [args], and the
    state it leaves. *)
Variable call : nat -> list value -> heap -> State -> value * State.

(** The number of positional parameters of callable number [f]. *)
Variable argcount : nat -> nat.

(** The interpreter's recursion limit. *)
Variable recursion_limit : nat.

(** Calling the Python value [f] on the arguments [args]. *)
Definition call_value (f : value) (args : list value) (h : heap) (s : State)
  : result (value * State) :=
  match f with
  | VFunc n => Ok (call n args h s)
  | _ => Raise TypeError
  end.

Definition callback3 : Type :=
  value -> value -> value -> heap -> State -> result (value * State).

(** The "where" test of a partial-match descriptor stored at [a]: every
    pair of the descriptor is found in [v] with an equal value. *)
Definition matches (h : heap) (a : addr) (v : value) : result bool :=
  match h !! a with
  | Some (ODict want) =>
      match v with
      | VRef x =>
          match h !! x with
          | Some (ODict have) =>
              all_ok (fun '(k, w) =>
                        match dict_get have k with
                        | Some u => py_eq recursion_limit h u w
                        | None => Ok false
                        end) want
          | _ => Ok false
          end
      | _ => Ok false
      end
  | _ => Raise TypeError
  end.

(** Modelled from the spec: the callback normaliser of [pydash/utils.py]
    (section 4.2).  An absent callback is the identity on the value, a
    callable receives as many of [(value, key, collection)] as it has
    parameters, a string looks that property up in the value ([None] when
    absent), a dict is a partial-match test.  Other values are no callback
    descriptors. *)
Definition make_callback (h : heap) (cb : value) : result callback3 :=
  match cb with
  | VNone => Ok (fun v _ _ _ s => Ok (v, s))
  | VFunc f =>
      Ok (fun v k c h s => Ok (call f (take (argcount f) [v; k; c]) h s))
  | VStr _ => Ok (fun v _ _ h s => Ok (get_item h v cb VNone, s))
  | VRef a =>
      match h !! a with
      | Some (ODict _) =>
          Ok (fun v _ _ h s => do b <- matches h a v; Ok (VBool b, s))
      | _ => Raise TypeError
      end
  | _ => Raise TypeError
  end.

(** What the callback iterator yields: [(result, value, key, collection)]. *)
Definition item : Type := (value * value * value * value)%type.

Definition item_result (it : item) : value :=
  match it with (r, _, _, _) => r end.

Definition item_key (it : item) : value :=
  match it with (_, _, k, _) => k end.

(** A generator: one suspended step per element still to be yielded; a step
    runs (and calls the callback) only when the consumer asks for it. *)
Definition generator : Type := list (State -> result (item * State)).

(** Modelled from the spec: [iter_callback] of [pydash/utils.py] (section
    4.3, Callback Iterator): for every pair of [iterate(obj)], in order, it
    yields [(callback(value, key, obj), value, key, obj)] with the
    normalised callback. *)
Definition iter_callback (h : heap) (obj cb : value) : result generator :=
  do pairs <- iterate h obj;
  do f <- make_callback h cb;
  Ok (map (fun '(k, v) => fun s =>
             do (r, s') <- f v k obj h s; Ok ((r, v, k, obj), s'))
          pairs).

(** *** assign *)

Fixpoint assign_items (obj callback : value) (items : list (value * value))
  (h : heap) (s : State) : result (heap * State) :=
  match items with
  | [] => Ok (h, s)
  | (key, val) :: r =>
      do (v, s1) <-
         (if is_None callback then Ok (val, s)
          else do old <- dict_method_get h obj key;
               call_value callback [old; val] h s);
      do h1 <- setitem h obj key v;
      assign_items obj callback r h1 s1
  end.

Fixpoint assign_sources (obj callback : value) (sources : list value)
  (h : heap) (s : State) : result (heap * State) :=
  match sources with
  | [] => Ok (h, s)
  | source :: r =>
      do items <- iteritems h source;
      do (h1, s1) <- assign_items obj callback items h s;
      assign_sources obj callback r h1 s1
  end.

Definition assign (obj : value) (sources : list value)
  (kargs : list (string * value)) (h : heap) (s : State)
  : result (value * heap * State) :=
  let callback := kargs_get kargs "callback" in
  do (sources, callback) <-
     (if is_None callback then
        match last sources with
        | None => Raise IndexError
        | Some f =>
            if callable f then Ok (removelast sources, f)
            else Ok (sources, callback)
        end
      else Ok (sources, callback));
  do (h', s') <- assign_sources obj callback sources h s;
  Ok (obj, h', s').

Definition extend := assign.

(** *** clone *)

Fixpoint clone_items (callback : value) (pairs : list (value * value))
  (h : heap) (s : State) : result (list (value * value) * State) :=
  match pairs with
  | [] => Ok ([], s)
  | (key, val) :: r =>
      do (v, s1) <-
         (if is_None callback then Ok (identity val, s)
          else call_value callback [val] h s);
      do (r', s2) <- clone_items callback r h s1;
      Ok ((key, v) :: r', s2)
  end.

Definition clone (v : value) (is_deep : bool) (callback : value)
  (h : heap) (s : State) : result (value * heap * State) :=
  do (v', h1) <-
     (if is_deep
      then do (c, _, h') <- deepcopy recursion_limit v [] h; Ok (c, h')
      else Ok (copy_copy h v));
  do pairs <- iterate h1 v';
  do (obj, s1) <- clone_items callback pairs h1 s;
  if isinstance_list h1 v'
  then let (r, h2) := alloc h1 (OList (map snd obj)) in Ok (r, h2, s1)
  else do d <- dict_of_pairs [] obj;
       let (r, h2) := alloc h1 (ODict d) in Ok (r, h2, s1).

Definition clone_deep (v callback : value) (h : heap) (s : State)
  : result (value * heap * State) :=
  clone v true callback h s.

(** *** find_key, for_in *)

Fixpoint find_key_loop (g : generator) (s : State) (h : heap)
  : result (value * State) :=
  match g with
  | [] => Ok (VNone, s)
  | step :: rest =>
      do (it, s') <- step s;
      if truthy h (item_result it) then Ok (item_key it, s')
      else find_key_loop rest s' h
  end.

Definition find_key (obj callback : value) (h : heap) (s : State)
  : result (value * State) :=
  do g <- iter_callback h obj callback;
  find_key_loop g s h.

Definition find_last_key := find_key.

Fixpoint for_in_loop (g : generator) (s : State) : result State :=
  match g with
  | [] => Ok s
  | step :: rest =>
      do (it, s') <- step s;
      if is_False (item_result it) then Ok s'
      else for_in_loop rest s'
  end.

Definition for_in (obj callback : value) (h : heap) (s : State)
  : result (value * State) :=
  do g <- iter_callback h obj callback;
  do s' <- for_in_loop g s;
  Ok (obj, s').

Definition for_in_right := for_in.
Definition for_own := for_in.
Definition for_own_right := for_in.

(** *** invert *)

Definition invert (obj : value) (h : heap) : result (value * heap) :=
  do pairs <- iterate h obj;
  do d <- dict_of_pairs [] (map (fun '(key, v) => (v, key)) pairs);
  Ok (alloc h (ODict d)).

(** *** Type and emptiness predicates *)

Definition is_list (h : heap) (v : value) : bool := isinstance_list h v.

Definition is_boolean (v : value) : bool :=
  match v with VBool _ => true | _ => false end.

(** [isinstance(value, integer_types + (float,))]; [bool] is a subclass of
    [int]. *)
Definition is_number (v : value) : bool :=
  match v with
  | VInt _ | VBool _ | VFloat _ => true
  | _ => false
  end.

Definition is_empty (h : heap) (v : value) : bool :=
  existsb (fun b : bool => b) [is_boolean v; is_number v; negb (truthy h v)].

Definition is_function (v : value) : bool := callable v.

Definition is_none (v : value) : bool := is_None v.

Definition is_string (v : value) : bool :=
  match v with VStr _ => true | _ => false end.

(** *** merge, update *)

Definition update_entry
  (rec : value -> value -> heap -> State -> result (value * heap * State))
  (obj callback key src_value : value) (h : heap) (s : State)
  : result (heap * State) :=
  let obj_value := get_item h obj key VNone in
  let is_sequences :=
    forallb (fun b : bool => b)
      [truthy h src_value; isinstance_list h src_value;
       isinstance_list h obj_value] in
  let is_mappings :=
    forallb (fun b : bool => b)
      [truthy h src_value; isinstance_dict h src_value;
       isinstance_dict h obj_value] in
  do (result, h1, s1) <-
     (if (is_sequences || is_mappings) && negb (truthy h callback)
      then rec obj_value src_value h s
      else if truthy h callback
      then do (r, s') <- call_value callback [obj_value; src_value] h s;
           Ok (r, h, s')
      else Ok (src_value, h, s));
  do h2 <- set_item h1 obj key result;
  Ok (h2, s1).

Fixpoint update_loop
  (rec : value -> value -> heap -> State -> result (value * heap * State))
  (obj callback : value) (pairs : list (value * value)) (h : heap) (s : State)
  : result (heap * State) :=
  match pairs with
  | [] => Ok (h, s)
  | (key, src_value) :: r =>
      do (h1, s1) <- update_entry rec obj callback key src_value h s;
      update_loop rec obj callback r h1 s1
  end.

(** [update depth obj source callback]: [depth] frames are left on the
    stack.  The recursive call passes no callback. *)
Fixpoint update (depth : nat) (obj source callback : value) (h : heap)
  (s : State) {struct depth} : result (value * heap * State) :=
  match depth with
  | O => Raise RecursionError
  | S d =>
      do pairs <- iterate h source;
      do (h', s') <-
         update_loop (fun o src => update d o src VNone)
           obj callback pairs h s;
      Ok (obj, h', s')
  end.

Fixpoint merge_sources (obj callback : value) (sources : list value)
  (h : heap) (s : State) : result (heap * State) :=
  match sources with
  | [] => Ok (h, s)
  | source :: r =>
      do (_, h1, s1) <- update recursion_limit obj source callback h s;
      merge_sources obj callback r h1 s1
  end.

Definition merge (obj : value) (sources : list value)
  (kargs : list (string * value)) (h : heap) (s : State)
  : result (value * heap * State) :=
  let callback := kargs_get kargs "callback" in
  do (h', s') <- merge_sources obj callback sources h s;
  Ok (obj, h', s').

(** *** omit, pick *)

(** The predicate the two functions work with: the callable itself, called
    on [(value, key, obj)], or else a membership test of the key in the
    flattened property names.  The keys come out of [iterate] and are
    scalars, for which [in] amounts to [same_key]. *)
Definition property_test (callback : value) (properties : list value)
  (h : heap) : result callback3 :=
  if callable callback
  then Ok (fun v key obj h s => call_value callback [v; key; obj] h s)
  else
    let callback := if is_None callback then [] else [callback] in
    do names <- flatten recursion_limit h (callback ++ properties);
    Ok (fun _ key _ _ s => Ok (VBool (existsb (same_key key) names), s)).

Fixpoint select_pairs (keep : bool -> bool) (test : callback3) (obj : value)
  (pairs : list (value * value)) (h : heap) (s : State)
  : result (list (value * value) * State) :=
  match pairs with
  | [] => Ok ([], s)
  | (key, v) :: r =>
      do (t, s1) <- test v key obj h s;
      do (r', s2) <- select_pairs keep test obj r h s1;
      Ok (if keep (truthy h t) then (key, v) :: r' else r', s2)
  end.

Definition omit (obj callback : value) (properties : list value)
  (h : heap) (s : State) : result (value * heap * State) :=
  do test <- property_test callback properties h;
  do pairs <- iterate h obj;
  do (kept, s') <- select_pairs negb test obj pairs h s;
  do d <- dict_of_pairs [] kept;
  let (r, h') := alloc h (ODict d) in Ok (r, h', s').

Definition pick (obj callback : value) (properties : list value)
  (h : heap) (s : State) : result (value * heap * State) :=
  do test <- property_test callback properties h;
  do pairs <- iterate h obj;
  do (kept, s') <- select_pairs (fun b => b) test obj pairs h s;
  do d <- dict_of_pairs [] kept;
  let (r, h') := alloc h (ODict d) in Ok (r, h', s').

(** *** defaults *)

(** [obj.setdefault(key, v)]: only a dict has the method; a key that is
    present keeps its value. *)
Definition dict_setdefault (h : heap) (obj key v : value) : result heap :=
  match obj with
  | VRef a =>
      match h !! a with
      | Some (ODict d) =>
          if hashable key
          then match dict_get d key with
               | Some _ => Ok h
               | None => Ok (<[a := ODict (dict_set d key v)]> h)
               end
          else Raise TypeError
      | _ => Raise AttributeError
      end
  | _ => Raise AttributeError
  end.

Fixpoint defaults_items (obj : value) (items : list (value * value))
  (h : heap) : result heap :=
  match items with
  | [] => Ok h
  | (key, val) :: r =>
      do h1 <- dict_setdefault h obj key val;
      defaults_items obj r h1
  end.

Fixpoint defaults_sources (obj : value) (sources : list value) (h : heap)
  : result heap :=
  match sources with
  | [] => Ok h
  | source :: r =>
      do items <- iteritems h source;
      do h1 <- defaults_items obj items h;
      defaults_sources obj r h1
  end.

Definition defaults (obj : value) (sources : list value) (h : heap)
  : result (value * heap) :=
  do h' <- defaults_sources obj sources h;
  Ok (obj, h').

(** *** functions_, has, keys, values, pairs *)

Definition functions_ (obj : value) (h : heap) : result (value * heap) :=
  do items <- iteritems h obj;
  Ok (alloc h (OList (map fst
                        (List.filter (fun '(key, v) => callable v) items)))).

Definition methods := functions_.

(** [key in [key for key, value in iterate(obj)]]: the keys are scalars, so
    an element equals [key] exactly when the two are the same key (nothing
    is hashed here: an unhashable [key] is just not found). *)
Definition has (obj key : value) (h : heap) : result bool :=
  do ps <- iterate h obj;
  Ok (existsb (fun k => same_key k key) (map fst ps)).

Definition keys (obj : value) (h : heap) : result (value * heap) :=
  do ps <- iterate h obj;
  Ok (alloc h (OList (map fst ps))).

Definition values (obj : value) (h : heap) : result (value * heap) :=
  do ps <- iterate h obj;
  Ok (alloc h (OList (map snd ps))).

(** The inner lists [[key, value]] of [pairs], allocated in iteration
    order. *)
Fixpoint pairs_items (ps : list (value * value)) (h : heap)
  : list value * heap :=
  match ps with
  | [] => ([], h)
  | (key, v) :: r =>
      let (x, h1) := alloc h (OList [key; v]) in
      let (xs, h2) := pairs_items r h1 in
      (x :: xs, h2)
  end.

(** [pairs] of the source (the plain name is in use for bound variables
    throughout this file). *)
Definition pairs_ (obj : value) (h : heap) : result (value * heap) :=
  do ps <- iterate h obj;
  let (xs, h1) := pairs_items ps h in
  Ok (alloc h1 (OList xs)).

(** *** map_values *)

(** The dict [ret] is local to the call until it is returned; it enters
    the store when the loop is over. *)
Fixpoint map_values_loop (g : generator) (ret : list (value * value))
  (s : State) : result (list (value * value) * State) :=
  match g with
  | [] => Ok (ret, s)
  | step :: rest =>
      do (it, s') <- step s;
      do ret' <- dict_setitem ret (item_key it) (item_result it);
      map_values_loop rest ret' s'
  end.

Definition map_values (obj callback : value) (h : heap) (s : State)
  : result (value * heap * State) :=
  do g <- iter_callback h obj callback;
  do (ret, s') <- map_values_loop g [] s;
  let (r, h') := alloc h (ODict ret) in Ok (r, h', s').


(** ** Definitions used to state the properties *)

(** The shape test of [update]: the source value is truthy and both values
    are lists, or both are dicts. *)
Definition same_shape (h : heap) (obj_value src_value : value) : bool :=
  truthy h src_value
  && ((isinstance_list h src_value && isinstance_list h obj_value)
      || (isinstance_dict h src_value && isinstance_dict h obj_value)).


(** Advancing a generator [n] times from state [s]: the items it yields
    (fewer than [n] when it is exhausted before) and the state it leaves. *)
Fixpoint advance (g : generator) (n : nat) (s : State)
  : result (list item * State) :=
  match n, g with
  | S n', step :: rest =>
      do (it, s1) <- step s;
      do (its, s2) <- advance rest n' s1;
      Ok (it :: its, s2)
  | _, _ => Ok ([], s)
  end.

(** Pairwise different keys, and the invariant of a dict's entries: the
    keys are hashable and no two of them are the same key. *)
Fixpoint distinct_keys (ks : list value) : Prop :=
  match ks with
  | [] => True
  | k :: r => Forall (fun k' => same_key k k' = false) r /\ distinct_keys r
  end.

Definition dict_wf (d : list (value * value)) : Prop :=
  Forall (fun k => hashable k = true) (map fst d)
  /\ distinct_keys (map fst d).

(** *** The store invariant, contents and reachability *)

(** The values held by a container (the keys of a dict are scalars). *)
Definition refs_of (o : object) : list value :=
  match o with
  | OList l => l
  | ODict d => map snd d
  end.

(** No dangling reference: a reference points below [n]. *)
Definition value_ok (n : nat) (v : value) : Prop :=
  match v with
  | VRef a => (a < n)%nat
  | _ => True
  end.

Definition object_ok (n : nat) (o : object) : Prop :=
  Forall (value_ok n) (refs_of o)
  /\ match o with ODict d => dict_wf d | OList _ => True end.

(** A store as Python builds them: every reference leads to an object, and
    every dict has hashable, pairwise different keys. *)
Definition heap_ok (h : heap) : Prop := Forall (object_ok (length h)) h.

(** The content of a value, unfolded through the store down to depth [n]
    (a cyclic structure has no finite unfolding). *)
Inductive tree : Type :=
| TLeaf (v : value)
| TList (items : list tree)
| TDict (entries : list (value * tree))
| TCut.

Fixpoint shape (n : nat) (h : heap) (v : value) : tree :=
  match v with
  | VRef a =>
      match n with
      | O => TCut
      | S n' =>
          match h !! a with
          | Some (OList l) => TList (map (shape n' h) l)
          | Some (ODict d) =>
              TDict (map (fun e => (fst e, shape n' h (snd e))) d)
          | None => TCut
          end
      end
  | _ => TLeaf v
  end.

(** [reachable h v c]: the container at address [c] is [v] itself or is
    nested somewhere inside [v]. *)
Inductive reachable (h : heap) : value -> nat -> Prop :=
| reach_here (a : nat) : reachable h (VRef a) a
| reach_step (a : nat) (o : object) (v : value) (c : nat) :
    h !! a = Some o -> In v (refs_of o) -> reachable h v c ->
    reachable h (VRef a) c.

(** *** What [deepcopy] maintains *)

Definition rename (m : memo) (v : value) : value :=
  match v with
  | VRef a => match memo_get m a with Some b => VRef b | None => v end
  | _ => v
  end.

Definition rename_obj (m : memo) (o : object) : object :=
  match o with
  | OList l => OList (map (rename m) l)
  | ODict d => ODict (combine (map fst d) (map (rename m) (map snd d)))
  end.

Definition in_memo (m : memo) (v : value) : Prop :=
  match v with
  | VRef a => memo_get m a <> None
  | _ => True
  end.

Definition memo_ext (m m' : memo) : Prop :=
  (forall a b, memo_get m a = Some b -> memo_get m' a = Some b)
  /\ (length m <= length m')%nat.

(** The copy of the object at [a] is complete at [b]. *)
Definition copied (h0 : heap) (m : memo) (h : heap) (a b : nat) : Prop :=
  exists o,
    h0 !! a = Some o
    /\ h !! b = Some (rename_obj m o)
    /\ Forall (in_memo m) (refs_of o).

(** The state of a deep copy of the store [h0]: [h] extends [h0], the memo
    [m] maps objects of [h0] one-to-one onto the objects allocated since,
    and every copy is complete except for those of the objects in
    [pending], which are still being filled. *)
Record copy_inv (h0 : heap) (pending : nat -> Prop) (m : memo) (h : heap)
  : Prop := {
  inv_prefix : forall a, (a < length h0)%nat -> h !! a = h0 !! a;
  inv_len : (length h0 <= length h)%nat;
  inv_nodup : List.NoDup (map fst m);
  inv_range : forall a b, memo_get m a = Some b ->
                          (a < length h0)%nat
                          /\ (length h0 <= b)%nat /\ (b < length h)%nat;
  inv_inj : forall a a' b, memo_get m a = Some b -> memo_get m a' = Some b ->
                           a = a';
  inv_surj : forall b, (length h0 <= b)%nat -> (b < length h)%nat ->
                       exists a, memo_get m a = Some b;
  inv_done : forall a b, memo_get m a = Some b -> ~ pending a ->
                         copied h0 m h a b
}.

(** *** Dict contents after assign and defaults *)

(** [d.update(items)]: every item is stored, in order. *)
Definition dict_update (d items : list (value * value))
  : list (value * value) :=
  fold_left (fun acc e => dict_set acc (fst e) (snd e)) items d.

(** Every item whose key is missing is added, in order. *)
Definition dict_fill (d items : list (value * value))
  : list (value * value) :=
  fold_left (fun acc e =>
               match dict_get acc (fst e) with
               | Some _ => acc
               | None => dict_set acc (fst e) (snd e)
               end) items d.

(** The value found under [k] in the first dict of [ds] that has the key. *)
Fixpoint first_found (ds : list (list (value * value))) (k : value)
  : option value :=
  match ds with
  | [] => None
  | d :: r =>
      match dict_get d k with
      | Some v => Some v
      | None => first_found r k
      end
  end.

(** A value that is not a container. *)
Definition is_scalar (v : value) : bool :=
  match v with VRef _ => false | _ => true end.

(** Applying [f] to every value held by a container. *)
Definition map_object (f : value -> value) (o : object) : object :=
  match o with
  | OList l => OList (map f l)
  | ODict d => ODict (map (fun e => (fst e, f (snd e))) d)
  end.


(** The sources of a call: dicts of the store, none of them the
    destination itself. *)
Definition sources_at (a : nat) (h : heap) (bs : list nat)
  (es : list (list (value * value))) : Prop :=
  Forall2 (fun b e => b <> a /\ h !! b = Some (ODict e) /\ dict_wf e) bs es.

(** * Properties *)

(** ** Facts about keys, dicts and lists *)

Lemma bind_ok {A B : Type} (a : A) (k : A -> result B) : bind (Ok a) k = k a.
Proof. reflexivity. Qed.

Lemma hkey_eqb_eq (x y : hkey) : hkey_eqb x y = true <-> x = y.
Proof.
  destruct x, y; simpl; split; intros H; try discriminate; try reflexivity.
  - apply andb_true_iff in H as [H1 H2].
    apply Z.eqb_eq in H1, H2. congruence.
  - injection H as -> ->. rewrite !Z.eqb_refl. reflexivity.
  - apply Bool.eqb_prop in H. congruence.
  - injection H as ->. apply Bool.eqb_reflx.
  - apply String.eqb_eq in H. congruence.
  - injection H as ->. apply String.eqb_refl.
  - apply Nat.eqb_eq in H. congruence.
  - injection H as ->. apply Nat.eqb_refl.
Qed.

Lemma same_key_refl (k : value) : hashable k = true -> same_key k k = true.
Proof.
  unfold hashable, same_key. destruct (to_key k); [|discriminate].
  intros _. apply hkey_eqb_eq. reflexivity.
Qed.

Lemma same_key_sym (a b : value) : same_key a b = same_key b a.
Proof.
  unfold same_key. destruct (to_key a) as [x|], (to_key b) as [y|]; try reflexivity.
  destruct (hkey_eqb x y) eqn:E.
  - apply hkey_eqb_eq in E. subst. symmetry. apply hkey_eqb_eq. reflexivity.
  - destruct (hkey_eqb y x) eqn:E'; [|reflexivity].
    apply hkey_eqb_eq in E'. subst.
    assert (hkey_eqb x x = true) by (apply hkey_eqb_eq; reflexivity). congruence.
Qed.

Lemma same_key_trans (a b c : value) :
  same_key a b = true -> same_key b c = true -> same_key a c = true.
Proof.
  unfold same_key.
  destruct (to_key a) as [x|], (to_key b) as [y|], (to_key c) as [z|];
    try discriminate.
  rewrite !hkey_eqb_eq. congruence.
Qed.

Lemma same_key_hashable_l (a b : value) : same_key a b = true -> hashable a = true.
Proof. unfold same_key, hashable. destruct (to_key a); [reflexivity|discriminate]. Qed.

Lemma same_key_hashable_r (a b : value) : same_key a b = true -> hashable b = true.
Proof. rewrite same_key_sym. apply same_key_hashable_l. Qed.

(** If [a] and [b] are one key, they are the same key as exactly the same
    values. *)
Lemma same_key_congr (a b c : value) :
  same_key a b = true -> same_key a c = same_key b c.
Proof.
  intros Hab. destruct (same_key b c) eqn:E.
  - eapply same_key_trans; eassumption.
  - destruct (same_key a c) eqn:E'; [|reflexivity].
    rewrite same_key_sym in Hab.
    rewrite (same_key_trans _ _ _ Hab E') in E. discriminate.
Qed.

Lemma dict_get_set_same (d : list (value * value)) (k v : value) :
  hashable k = true -> dict_get (dict_set d k v) k = Some v.
Proof.
  intros Hk. induction d as [|[k' v'] r IH]; simpl.
  - rewrite same_key_refl by assumption. reflexivity.
  - destruct (same_key k' k) eqn:E; simpl; rewrite E; [reflexivity|exact IH].
Qed.

Lemma dict_get_set_other (d : list (value * value)) (k k' v : value) :
  same_key k k' = false -> dict_get (dict_set d k v) k' = dict_get d k'.
Proof.
  intros Hne. induction d as [|[k0 v0] r IH]; simpl.
  - rewrite Hne. reflexivity.
  - destruct (same_key k0 k) eqn:E; simpl.
    + rewrite (same_key_congr _ _ k' E), Hne. reflexivity.
    + rewrite IH. reflexivity.
Qed.

Lemma dict_set_fresh (d : list (value * value)) (k v : value) :
  Forall (fun e => same_key (fst e) k = false) d ->
  dict_set d k v = d ++ [(k, v)].
Proof.
  induction 1 as [|[k' v'] r Hk _ IH]; simpl in *; [reflexivity|].
  rewrite Hk, IH. reflexivity.
Qed.




(** ** is_empty *)

(** C6: [is_empty(v)] is [True] exactly when [v] is a boolean, or a number
    (an integer or a float, whatever its magnitude), or falsy, that is
    [None], the empty string, an empty list or an empty dict; otherwise it
    is [False].  So [is_empty(0)], [is_empty(5)] and [is_empty(1.5)] are
    [True], and a non-empty string, a callable and a non-empty list or dict
    are not empty. *)
Theorem is_empty_spec (h : heap) (v : value) :
  (is_empty h v = true <->
   (exists b, v = VBool b)
   \/ (exists n, v = VInt n)
   \/ (exists x, v = VFloat x)
   \/ v = VNone
   \/ v = VStr EmptyString
   \/ (exists a, v = VRef a
                 /\ (h !! a = Some (OList []) \/ h !! a = Some (ODict []))))
  /\ (forall s, s <> EmptyString -> is_empty h (VStr s) = false)
  /\ (forall f, is_empty h (VFunc f) = false)
  /\ (forall a x l, h !! a = Some (OList (x :: l)) ->
                    is_empty h (VRef a) = false)
  /\ (forall a e d, h !! a = Some (ODict (e :: d)) ->
                    is_empty h (VRef a) = false)
  /\ is_empty h (VInt 0) = true
  /\ is_empty h (VInt 5) = true
  /\ is_empty h (VFloat (S754_finite false 3 (-1))) = true.
Proof.
  split; [|split; [|split; [|split; [|split; [|repeat split]]]]].
  - split.
    + intros H. destruct v as [|b|n|x|s|f|a].
      * right; right; right; left. reflexivity.
      * left. exists b. reflexivity.
      * right; left. exists n. reflexivity.
      * right; right; left. exists x. reflexivity.
      * right; right; right; right; left. f_equal.
        apply String.eqb_eq. unfold is_empty in H. simpl in H.
        destruct (String.eqb s EmptyString); [reflexivity|discriminate].
      * discriminate.
      * right; right; right; right; right. exists a. split; [reflexivity|].
        unfold is_empty in H. simpl in H.
        destruct (h !! a) as [[[|y l]|[|e d]]|]; try discriminate;
          [left|right]; reflexivity.
    + intros [[b ->]|[[n ->]|[[x ->]|[->|[->|(a & -> & [Ha|Ha])]]]]];
        try reflexivity; unfold is_empty; simpl; rewrite Ha; reflexivity.
  - intros s Hs. unfold is_empty. simpl.
    destruct (String.eqb s EmptyString) eqn:E; [|reflexivity].
    apply String.eqb_eq in E. contradiction.
  - intros f. reflexivity.
  - intros a x l Ha. unfold is_empty. simpl. rewrite Ha. reflexivity.
  - intros a e d Ha. unfold is_empty. simpl. rewrite Ha. reflexivity.
Qed.

(** ** assign *)

(** C9: with no source argument, [assign(obj)] raises (the index [-1] of
    the empty source list) as soon as no callback comes by keyword, whereas
    [assign(obj, callback=f)] returns [obj], with the store untouched. *)
Theorem assign_no_sources (obj : value) (kargs : list (string * value))
  (h : heap) (s : State) :
  (kargs_get kargs "callback" = VNone ->
   assign obj [] kargs h s = Raise IndexError)
  /\ (kargs_get kargs "callback" <> VNone ->
      assign obj [] kargs h s = Ok (obj, h, s)).
Proof.
  unfold assign. split; intros H.
  - rewrite H. reflexivity.
  - destruct (kargs_get kargs "callback"); try reflexivity. congruence.
Qed.

(** ** update and merge *)

Lemma update_unfold (d : nat) (obj source callback : value) (h : heap)
  (s : State) :
  update (S d) obj source callback h s =
  do pairs <- iterate h source;
  do (h', s') <-
     update_loop (fun o src => update d o src VNone) obj callback pairs h s;
  Ok (obj, h', s').
Proof. reflexivity. Qed.


Lemma update_entry_recurse
  (rec : value -> value -> heap -> State -> result (value * heap * State))
  (obj callback key src_value : value) (h : heap) (s : State) :
  truthy h callback = false ->
  same_shape h (get_item h obj key VNone) src_value = true ->
  update_entry rec obj callback key src_value h s =
  do (r, h1, s1) <- rec (get_item h obj key VNone) src_value h s;
  do h' <- set_item h1 obj key r;
  Ok (h', s1).
Proof.
  intros Hcb Hshape. unfold update_entry, same_shape in *. rewrite Hcb.
  simpl forallb. rewrite !andb_true_r.
  destruct (truthy h src_value); simpl in Hshape; [|discriminate].
  simpl. rewrite Hshape. reflexivity.
Qed.

Lemma update_entry_overwrite
  (rec : value -> value -> heap -> State -> result (value * heap * State))
  (obj callback key src_value : value) (h : heap) (s : State) :
  truthy h callback = false ->
  same_shape h (get_item h obj key VNone) src_value = false ->
  update_entry rec obj callback key src_value h s =
  do h' <- set_item h obj key src_value;
  Ok (h', s).
Proof.
  intros Hcb Hshape. unfold update_entry, same_shape in *. rewrite Hcb.
  simpl forallb. rewrite !andb_true_r.
  destruct (truthy h src_value); simpl in *; [rewrite Hshape|]; reflexivity.
Qed.

Lemma update_loop_cons
  (rec : value -> value -> heap -> State -> result (value * heap * State))
  (obj callback key src_value : value) (r : list (value * value))
  (h : heap) (s : State) :
  update_loop rec obj callback ((key, src_value) :: r) h s =
  do (h1, s1) <- update_entry rec obj callback key src_value h s;
  update_loop rec obj callback r h1 s1.
Proof. reflexivity. Qed.



(** C2: [merge({'a': [1, 2]}, {'a': [9]})] returns [{'a': [9, 2]}].
    Wherever the four containers live in the store, the destination list is
    merged in place by index: its index 0 is overwritten with 9, its index
    1 keeps 2, the destination dict still holds that very list under ['a'],
    and the source is left as it was. *)
Theorem merge_lists_by_index (a al b bl : addr) (h : heap) (s : State) :
  (2 <= recursion_limit)%nat ->
  h !! a = Some (ODict [(VStr "a", VRef al)]) ->
  h !! al = Some (OList [VInt 1; VInt 2]) ->
  h !! b = Some (ODict [(VStr "a", VRef bl)]) ->
  h !! bl = Some (OList [VInt 9]) ->
  exists h',
    merge (VRef a) [VRef b] [] h s = Ok (VRef a, h', s)
    /\ h' !! a = Some (ODict [(VStr "a", VRef al)])
    /\ h' !! al = Some (OList [VInt 9; VInt 2])
    /\ h' !! b = Some (ODict [(VStr "a", VRef bl)])
    /\ h' !! bl = Some (OList [VInt 9]).
Proof.
  intros Hlim Ha Hal Hb Hbl.
  assert (Haal : a <> al) by (intros ->; congruence).
  assert (Hbal : b <> al) by (intros ->; congruence).
  assert (Hblal : bl <> al) by (intros ->; congruence).
  destruct recursion_limit as [|[|n]] eqn:Hrl; [lia|lia|].
  exists (<[al := OList [VInt 9; VInt 2]]> h).
  split.
  - unfold merge. simpl kargs_get. unfold merge_sources. rewrite Hrl.
    assert (Hg : get_item h (VRef a) (VStr "a") VNone = VRef al).
    { unfold get_item. rewrite Ha. reflexivity. }
    assert (Hg0 : get_item h (VRef al) (VInt (Z.of_nat 0)) VNone = VInt 1).
    { unfold get_item. rewrite Hal. reflexivity. }
    rewrite update_unfold. unfold iterate at 1. rewrite Hb, bind_ok.
    rewrite update_loop_cons, update_entry_recurse; [|reflexivity|].
    2:{ rewrite Hg. unfold same_shape, truthy, isinstance_list.
        rewrite Hbl, Hal. reflexivity. }
    rewrite Hg, update_unfold. unfold iterate. rewrite Hbl, bind_ok.
    change (enumerate 0 [VInt 9]) with [(VInt (Z.of_nat 0), VInt 9)].
    rewrite update_loop_cons, update_entry_overwrite; [|reflexivity|].
    2:{ rewrite Hg0. reflexivity. }
    assert (Hs1 : set_item h (VRef al) (VInt (Z.of_nat 0)) (VInt 9) =
                  Ok (<[al := OList [VInt 9; VInt 2]]> h)).
    { unfold set_item. rewrite Hal. reflexivity. }
    assert (Hs2 : set_item (<[al := OList [VInt 9; VInt 2]]> h)
                    (VRef a) (VStr "a") (VRef al) =
                  Ok (<[al := OList [VInt 9; VInt 2]]> h)).
    { unfold set_item. rewrite list_lookup_insert_ne by congruence.
      rewrite Ha. simpl. f_equal. apply list_insert_id.
      rewrite list_lookup_insert_ne by congruence. exact Ha. }
    rewrite Hs1. cbn [bind update_loop]. rewrite Hs2. reflexivity.
  - repeat split.
    + rewrite list_lookup_insert_ne by congruence. exact Ha.
    + apply list_lookup_insert_eq. eapply lookup_lt_Some. exact Hal.
    + rewrite list_lookup_insert_ne by congruence. exact Hb.
    + rewrite list_lookup_insert_ne by congruence. exact Hbl.
Qed.

(** ** for_in and find_key *)

Lemma removelast_cons2 {A : Type} (x y : A) (l : list A) :
  removelast (x :: y :: l) = x :: removelast (y :: l).
Proof. reflexivity. Qed.

Lemma for_in_loop_prefix (g : generator) :
  forall (n : nat) (items : list item) (s s' : State),
    advance g n s = Ok (items, s') ->
    length items = n ->
    Forall (fun it => is_False (item_result it) = false) (removelast items) ->
    n = length g
    \/ (exists it, last items = Some it /\ is_False (item_result it) = true) ->
    for_in_loop g s = Ok s'.
Proof.
  induction g as [|step rest IH]; intros n items s s' Hadv Hlen Hpre Hstop.
  - destruct n; simpl in Hadv; injection Hadv as <- <-; reflexivity.
  - destruct n as [|n].
    + simpl in Hadv. injection Hadv as <- <-.
      destruct Hstop as [Hn|(it & Hl & _)]; discriminate.
    + simpl in Hadv. simpl.
      destruct (step s) as [[it s1]|e]; simpl in *; [|discriminate].
      destruct (advance rest n s1) as [[its s2]|e] eqn:Hrest; simpl in *;
        [|discriminate].
      injection Hadv as <- <-. simpl in Hlen. injection Hlen as Hlen.
      destruct its as [|it2 its].
      * simpl in Hlen. subst n. simpl in Hrest.
        assert (s2 = s1) by (destruct rest; simpl in Hrest; congruence). subst s2.
        destruct (is_False (item_result it)) eqn:HF; [reflexivity|].
        apply (IH 0%nat [] s1 s1).
        -- destruct rest; reflexivity.
        -- reflexivity.
        -- constructor.
        -- destruct Hstop as [Hn|(it' & Hl & HF')].
           ++ left. lia.
           ++ simpl in Hl. injection Hl as <-. congruence.
      * rewrite removelast_cons2 in Hpre. inversion Hpre as [|? ? HF Hpre']; subst.
        rewrite HF. apply (IH _ (it2 :: its) s1 s2 Hrest eq_refl Hpre').
        destruct Hstop as [Hn|(it' & Hl & HF')].
        -- left. lia.
        -- right. exists it'. split; [exact Hl|exact HF'].
Qed.

(** C4: [for_in(obj, callback)] walks the pairs of [obj] in iteration
    order and returns [obj].  If the callback has been run on the first [n]
    pairs (yielding [items] and leaving state [s']) without any of the
    first [n-1] results being the object [False], and either all pairs are
    consumed or the [n]-th result is [False], then [for_in] has run the
    callback on exactly these [n] pairs: it stops at the first result that
    is [False], and only there, since the falsy results [0], [''] and
    [None] are not [False]. *)
Theorem for_in_stops_at_first_False (obj callback : value) (h : heap)
  (s s' : State) (g : generator) (n : nat) (items : list item) :
  iter_callback h obj callback = Ok g ->
  advance g n s = Ok (items, s') ->
  length items = n ->
  Forall (fun it => is_False (item_result it) = false) (removelast items) ->
  n = length g
  \/ (exists it, last items = Some it /\ is_False (item_result it) = true) ->
  for_in obj callback h s = Ok (obj, s')
  /\ is_False (VInt 0) = false
  /\ is_False (VStr EmptyString) = false
  /\ is_False VNone = false.
Proof.
  intros Hg Hadv Hlen Hpre Hstop. split; [|auto].
  unfold for_in. rewrite Hg, bind_ok.
  rewrite (for_in_loop_prefix g n items s s' Hadv Hlen Hpre Hstop).
  reflexivity.
Qed.

Lemma find_key_loop_prefix (h : heap) (g : generator) :
  forall (n : nat) (items : list item) (s s' : State),
    advance g n s = Ok (items, s') ->
    length items = n ->
    Forall (fun it => truthy h (item_result it) = false) (removelast items) ->
    (forall it, last items = Some it ->
                truthy h (item_result it) = true ->
                find_key_loop g s h = Ok (item_key it, s'))
    /\ (n = length g ->
        Forall (fun it => truthy h (item_result it) = false) items ->
        find_key_loop g s h = Ok (VNone, s')).
Proof.
  induction g as [|step rest IH]; intros n items s s' Hadv Hlen Hpre.
  - assert (items = [] /\ s' = s) as [-> ->]
      by (destruct n; simpl in Hadv; injection Hadv as <- <-; auto).
    split; [intros it Hl; discriminate|reflexivity].
  - destruct n as [|n].
    + simpl in Hadv. injection Hadv as <- <-.
      split; [intros it Hl; discriminate|discriminate].
    + simpl in Hadv. simpl.
      destruct (step s) as [[it s1]|e]; simpl in *; [|discriminate].
      destruct (advance rest n s1) as [[its s2]|e] eqn:Hrest; simpl in *;
        [|discriminate].
      injection Hadv as <- <-. simpl in Hlen. injection Hlen as Hlen.
      destruct its as [|it2 its].
      * simpl in Hlen. subst n. simpl in Hrest.
        assert (s2 = s1) by (destruct rest; simpl in Hrest; congruence). subst s2.
        split.
        -- intros it' Hl Ht. simpl in Hl. injection Hl as <-.
           rewrite Ht. reflexivity.
        -- intros Hn Hall. inversion Hall as [|? ? Ht _]; subst.
           rewrite Ht. destruct rest; [reflexivity|discriminate].
      * rewrite removelast_cons2 in Hpre.
        inversion Hpre as [|? ? Ht Hpre']; subst.
        rewrite Ht.
        destruct (IH _ (it2 :: its) s1 s2 Hrest eq_refl Hpre') as [IH1 IH2].
        split.
        -- intros it' Hl. apply IH1. exact Hl.
        -- intros Hn Hall. apply IH2; [lia|].
           inversion Hall; assumption.
Qed.

(** C5: [find_last_key] is [find_key]: on every input the two return the
    same thing, namely the key of the first pair, in forward iteration
    order, whose normalised callback result is truthy (the callback is not
    run on later pairs), and [None] when all results are falsy. *)
Theorem find_last_key_is_find_key (obj callback : value) (h : heap)
  (s : State) :
  find_last_key obj callback h s = find_key obj callback h s
  /\ forall (g : generator) (n : nat) (items : list item) (s' : State),
      iter_callback h obj callback = Ok g ->
      advance g n s = Ok (items, s') ->
      length items = n ->
      Forall (fun it => truthy h (item_result it) = false) (removelast items) ->
      (forall it, last items = Some it ->
                  truthy h (item_result it) = true ->
                  find_last_key obj callback h s = Ok (item_key it, s'))
      /\ (n = length g ->
          Forall (fun it => truthy h (item_result it) = false) items ->
          find_last_key obj callback h s = Ok (VNone, s')).
Proof.
  split; [reflexivity|].
  intros g n items s' Hg Hadv Hlen Hpre.
  unfold find_last_key, find_key. rewrite Hg, bind_ok.
  exact (find_key_loop_prefix h g n items s s' Hadv Hlen Hpre).
Qed.

(** ** Building dicts *)

Lemma dict_of_pairs_app (acc l1 l2 : list (value * value)) :
  dict_of_pairs acc (l1 ++ l2) =
  do acc' <- dict_of_pairs acc l1; dict_of_pairs acc' l2.
Proof.
  revert acc. induction l1 as [|[k v] r IH]; intros acc; simpl; [reflexivity|].
  destruct (dict_setitem acc k v) as [acc'|e]; simpl; [apply IH|reflexivity].
Qed.

Lemma dict_of_pairs_total (pairs : list (value * value)) :
  Forall (fun k => hashable k = true) (map fst pairs) ->
  forall acc, exists d, dict_of_pairs acc pairs = Ok d.
Proof.
  induction pairs as [|[k v] r IH]; simpl; intros Hh acc.
  - exists acc. reflexivity.
  - inversion Hh as [|? ? Hk Hr]; subst.
    unfold dict_setitem. rewrite Hk. simpl. apply IH. exact Hr.
Qed.

(** Inserting well-formed entries whose keys are all new just appends. *)
Lemma dict_of_pairs_fresh (pairs : list (value * value)) :
  forall acc,
    dict_wf pairs ->
    Forall (fun e => Forall (fun k => same_key (fst e) k = false)
                       (map fst pairs)) acc ->
    dict_of_pairs acc pairs = Ok (acc ++ pairs).
Proof.
  induction pairs as [|[k v] r IH]; simpl; intros acc [Hh Hd] Hacc.
  - rewrite app_nil_r. reflexivity.
  - inversion Hh as [|? ? Hk Hr]; subst. destruct Hd as [Hkr Hd].
    unfold dict_setitem. rewrite Hk. simpl.
    rewrite dict_set_fresh.
    + rewrite IH.
      * rewrite <- app_assoc. reflexivity.
      * split; assumption.
      * apply Forall_app. split.
        -- eapply Forall_impl; [exact Hacc|].
           intros e He. inversion He; assumption.
        -- constructor; [exact Hkr|constructor].
    + eapply Forall_impl; [exact Hacc|].
      intros e He. inversion He; assumption.
Qed.

Lemma dict_of_pairs_wf (pairs : list (value * value)) :
  dict_wf pairs -> dict_of_pairs [] pairs = Ok pairs.
Proof. intros H. rewrite dict_of_pairs_fresh; [reflexivity|exact H|constructor]. Qed.

Lemma dict_of_pairs_keeps (pairs : list (value * value)) (k : value) :
  Forall (fun e => same_key (fst e) k = false) pairs ->
  forall acc d,
    dict_of_pairs acc pairs = Ok d -> dict_get d k = dict_get acc k.
Proof.
  induction 1 as [|[k' v'] r Hk _ IH]; simpl; intros acc d Hd.
  - congruence.
  - unfold dict_setitem in Hd. destruct (hashable k'); [|discriminate].
    simpl in Hd. rewrite (IH _ _ Hd). apply dict_get_set_other. exact Hk.
Qed.

(** Last write wins: the entry found under [k] is the last one inserted
    under that key. *)
Lemma dict_of_pairs_last (pre post : list (value * value)) (k v : value) :
  Forall (fun e => same_key (fst e) k = false) post ->
  forall acc d,
    dict_of_pairs acc (pre ++ (k, v) :: post) = Ok d ->
    dict_get d k = Some v.
Proof.
  intros Hpost acc d. rewrite dict_of_pairs_app.
  destruct (dict_of_pairs acc pre) as [acc1|e]; simpl; [|discriminate].
  unfold dict_setitem. destruct (hashable k) eqn:Hk; [|discriminate].
  simpl. intros Hd.
  rewrite (dict_of_pairs_keeps post k Hpost _ _ Hd).
  apply dict_get_set_same. exact Hk.
Qed.

(** ** invert *)

Lemma swap_map_fst (m : list (value * value)) :
  map fst (map (fun '(key, v) => (v, key)) m) = map snd m.
Proof. induction m as [|[k v] r IH]; simpl; [reflexivity|]. rewrite IH. reflexivity. Qed.

Lemma swap_swap (m : list (value * value)) :
  map (fun '(key, v) => (v, key)) (map (fun '(key, v) => (v, key)) m) = m.
Proof. induction m as [|[k v] r IH]; simpl; [reflexivity|]. rewrite IH. reflexivity. Qed.

(** C8: for a dict [m] whose values are hashable and pairwise different,
    [invert(invert(m))] is a dict with the entries of [m]; and whenever the
    values of [m] are hashable, [invert(m)] maps every value to the key of
    the last entry of [m], in iteration order, that carries this value. *)
Theorem invert_involutive_and_last_wins (a : addr) (m : list (value * value))
  (h : heap) :
  h !! a = Some (ODict m) ->
  dict_wf m ->
  Forall (fun v => hashable v = true) (map snd m) ->
  (distinct_keys (map snd m) ->
   exists h1 h2 r1 r2,
     invert (VRef a) h = Ok (VRef r1, h1)
     /\ invert (VRef r1) h1 = Ok (VRef r2, h2)
     /\ h2 !! r2 = Some (ODict m)
     /\ h2 !! a = Some (ODict m))
  /\ exists d,
      invert (VRef a) h = Ok (VRef (length h), h ++ [ODict d])
      /\ forall pre post k v,
          m = pre ++ (k, v) :: post ->
          Forall (fun e => same_key (snd e) v = false) post ->
          dict_get d v = Some k.
Proof.
  intros Ha Hwf Hvals.
  set (inv := map (fun '(key, v) => (v, key)) m).
  assert (Hit : iterate h (VRef a) = Ok m) by (simpl; rewrite Ha; reflexivity).
  split.
  - intros Hdist.
    assert (Hinv : dict_wf inv).
    { unfold dict_wf, inv. rewrite swap_map_fst. split; assumption. }
    exists (h ++ [ODict inv]), ((h ++ [ODict inv]) ++ [ODict m]),
      (length h), (length (h ++ [ODict inv])).
    assert (H1 : (h ++ [ODict inv]) !! length h = Some (ODict inv)).
    { rewrite lookup_app_r by lia. rewrite Nat.sub_diag. reflexivity. }
    repeat split.
    + unfold invert. rewrite Hit, bind_ok. fold inv.
      rewrite dict_of_pairs_wf by exact Hinv. reflexivity.
    + unfold invert, iterate. rewrite H1, bind_ok.
      subst inv. rewrite swap_swap.
      rewrite dict_of_pairs_wf by exact Hwf. reflexivity.
    + rewrite lookup_app_r by lia. rewrite Nat.sub_diag. reflexivity.
    + rewrite <- app_assoc. rewrite lookup_app_l by (eapply lookup_lt_Some; exact Ha).
      exact Ha.
  - destruct (dict_of_pairs_total inv) with (acc := @nil (value * value))
      as [d Hd].
    { unfold inv. rewrite swap_map_fst. exact Hvals. }
    exists d. split.
    + unfold invert. rewrite Hit, bind_ok. fold inv. rewrite Hd. reflexivity.
    + intros pre post k v -> Hpost.
      unfold inv in Hd. rewrite map_app in Hd. simpl in Hd.
      eapply dict_of_pairs_last; [|exact Hd].
      clear -Hpost. induction Hpost as [|[k' v'] r Hk _ IH]; simpl;
        constructor; assumption.
Qed.

(** ** Integer keys *)

Lemma odd_part_spec (p : positive) :
  0 <= snd (odd_part p)
  /\ Zpos p = Zpos (fst (odd_part p)) * 2 ^ snd (odd_part p).
Proof.
  induction p as [p IH|p IH|]; simpl.
  - split; lia.
  - destruct (odd_part p) as [o k]. simpl in *. destruct IH as [Hk Hp].
    split; [lia|].
    rewrite Z.pow_succ_r by exact Hk. rewrite Pos2Z.inj_xO, Hp. ring.
  - split; lia.
Qed.

Lemma odd_part_inj (p q : positive) : odd_part p = odd_part q -> p = q.
Proof.
  intros H. destruct (odd_part_spec p) as [_ Hp], (odd_part_spec q) as [_ Hq].
  rewrite H in Hp. rewrite <- Hq in Hp. congruence.
Qed.

Lemma int_key_inj (n m : Z) : int_key n = int_key m -> n = m.
Proof.
  unfold int_key, num_key.
  destruct n as [|p|p], m as [|q|q]; try reflexivity;
    repeat match goal with
           | |- context [odd_part ?x] =>
               let o := fresh "o" in let k := fresh "k" in
               let E := fresh "E" in destruct (odd_part x) as [o k] eqn:E
           end; intros [= Ho Hk]; try discriminate.
  - f_equal. apply odd_part_inj. rewrite E, E0. f_equal; [congruence|lia].
  - f_equal. apply odd_part_inj. rewrite E, E0. f_equal; [congruence|lia].
Qed.

Lemma same_key_int (n m : Z) : same_key (VInt n) (VInt m) = true <-> n = m.
Proof.
  unfold same_key. simpl. rewrite hkey_eqb_eq. split.
  - apply int_key_inj.
  - congruence.
Qed.

Lemma enumerate_keys_above (l : list value) :
  forall i j : nat,
    (j < i)%nat ->
    Forall (fun k => same_key (VInt (Z.of_nat j)) k = false)
      (map fst (enumerate i l)).
Proof.
  induction l as [|x r IH]; simpl; intros i j Hj; constructor.
  - destruct (same_key _ _) eqn:E; [|reflexivity].
    apply same_key_int in E. lia.
  - apply IH. lia.
Qed.

(** The pairs of a list form well-formed dict entries. *)
Lemma enumerate_wf (l : list value) : forall i, dict_wf (enumerate i l).
Proof.
  induction l as [|x r IH]; simpl; intros i.
  - split; constructor.
  - destruct (IH (S i)) as [Hh Hd]. split; simpl.
    + constructor; [reflexivity|exact Hh].
    + split; [apply enumerate_keys_above; lia|exact Hd].
Qed.

Lemma dict_wf_filter (p : value * value -> bool) (l : list (value * value)) :
  dict_wf l -> dict_wf (List.filter p l).
Proof.
  induction l as [|[k v] r IH]; simpl; intros [Hh Hd]; [split; constructor|].
  simpl in *. inversion Hh as [|? ? Hk Hr]; subst. destruct Hd as [Hkr Hd].
  destruct (IH (conj Hr Hd)) as [Hh' Hd'].
  destruct (p (k, v)); [|split; assumption].
  split; simpl.
  - constructor; assumption.
  - split; [|exact Hd'].
    clear -Hkr. induction r as [|[k' v'] r IH]; simpl in *; [constructor|].
    inversion Hkr; subst. destruct (p (k', v')); simpl; auto.
Qed.

(** In well-formed entries a key occurs once. *)
Lemma dict_wf_same_key (l : list (value * value)) (e e' : value * value) :
  dict_wf l -> In e l -> In e' l ->
  same_key (fst e) (fst e') = true -> e = e'.
Proof.
  intros [_ Hd]. induction l as [|x r IH]; simpl in *; [intros []|].
  destruct Hd as [Hx Hd]. rewrite List.Forall_forall in Hx.
  intros [->|He] [->|He'] Hs.
  - reflexivity.
  - rewrite (Hx (fst e')) in Hs; [discriminate|]. apply in_map. exact He'.
  - rewrite same_key_sym in Hs.
    rewrite (Hx (fst e)) in Hs; [discriminate|]. apply in_map. exact He.
  - apply IH; assumption.
Qed.

Lemma iterate_wf (h : heap) (a : addr) (pairs : list (value * value)) :
  (forall d, h !! a = Some (ODict d) -> dict_wf d) ->
  iterate h (VRef a) = Ok pairs -> dict_wf pairs.
Proof.
  intros Hd. simpl. destruct (h !! a) as [[l|d]|]; intros [= <-].
  - apply enumerate_wf.
  - apply Hd. reflexivity.
Qed.

(** ** pick and omit *)

Lemma select_pairs_filter (keep : bool -> bool) (f : nat) (test : callback3)
  (obj : value) (h : heap) (s0 : State) :
  (forall v key s, test v key obj h s = Ok (call f [v; key; obj] h s)) ->
  (forall args s s', fst (call f args h s) = fst (call f args h s')) ->
  forall pairs s,
  exists s',
    select_pairs keep test obj pairs h s =
    Ok (List.filter
          (fun e => keep (truthy h (fst (call f [snd e; fst e; obj] h s0))))
          pairs, s').
Proof.
  intros Htest Hdet. induction pairs as [|[k v] r IH]; intros s.
  - exists s. reflexivity.
  - cbn [select_pairs List.filter fst snd]. rewrite Htest, bind_ok.
    rewrite (Hdet [v; k; obj] s0 s).
    destruct (call f [v; k; obj] h s) as [t s1].
    destruct (IH s1) as [s' ->]. rewrite bind_ok. cbn [fst].
    exists s'. destruct (keep (truthy h t)); reflexivity.
Qed.

Lemma property_test_callable (f : nat) (properties : list value) (h : heap) :
  property_test (VFunc f) properties h =
  Ok (fun v key obj h s => call_value (VFunc f) [v; key; obj] h s).
Proof. reflexivity. Qed.

(** C10: for a callable [cb] whose result depends on its arguments only,
    [pick(obj, cb)] and [omit(obj, cb)] split the pairs of [obj]: [pick]
    returns a new dict with the pairs on which [cb(value, key, obj)] is
    truthy, [omit] a new dict with the other pairs, both in iteration order;
    every pair of [obj] is in exactly one of the two, and no key of the one
    is a key of the other. *)
Theorem pick_omit_partition (f : nat) (obj : value) (properties : list value)
  (pairs : list (value * value)) (h : heap) (s1 s2 : State) :
  iterate h obj = Ok pairs ->
  (forall a d, obj = VRef a -> h !! a = Some (ODict d) -> dict_wf d) ->
  (forall args s s', fst (call f args h s) = fst (call f args h s')) ->
  let holds e := truthy h (fst (call f [snd e; fst e; obj] h s1)) in
  exists picked omitted s1' s2',
    pick obj (VFunc f) properties h s1
    = Ok (VRef (length h), h ++ [ODict picked], s1')
    /\ omit obj (VFunc f) properties h s2
       = Ok (VRef (length h), h ++ [ODict omitted], s2')
    /\ picked = List.filter holds pairs
    /\ omitted = List.filter (fun e => negb (holds e)) pairs
    /\ (forall e, In e pairs <-> In e picked \/ In e omitted)
    /\ (forall e, In e picked -> In e omitted -> False)
    /\ (forall e e', In e picked -> In e' omitted ->
                     same_key (fst e) (fst e') = false).
Proof.
  intros Hit Hobj Hdet holds.
  assert (Hwf : dict_wf pairs).
  { destruct obj as [| | | | | |a]; try discriminate.
    apply (iterate_wf h a); [|exact Hit]. intros d. apply Hobj. reflexivity. }
  destruct (select_pairs_filter (fun b => b) f
              (fun v key obj h s => call_value (VFunc f) [v; key; obj] h s)
              obj h s1 (fun _ _ _ => eq_refl) Hdet pairs s1) as [s1' Hp].
  destruct (select_pairs_filter negb f
              (fun v key obj h s => call_value (VFunc f) [v; key; obj] h s)
              obj h s1 (fun _ _ _ => eq_refl) Hdet pairs s2) as [s2' Ho].
  exists (List.filter holds pairs),
    (List.filter (fun e => negb (holds e)) pairs), s1', s2'.
  split; [|split; [|split; [reflexivity|split; [reflexivity|]]]].
  - unfold pick. rewrite property_test_callable.
    rewrite bind_ok, Hit, bind_ok, Hp, bind_ok.
    rewrite dict_of_pairs_wf by (apply dict_wf_filter; exact Hwf).
    reflexivity.
  - unfold omit. rewrite property_test_callable.
    rewrite bind_ok, Hit, bind_ok, Ho, bind_ok.
    rewrite dict_of_pairs_wf by (apply dict_wf_filter; exact Hwf).
    reflexivity.
  - split; [|split].
    + intros e. rewrite !filter_In. destruct (holds e); simpl; split;
        [ intros H; left; auto | intros [[H _]|[H _]]; exact H
        | intros H; right; auto | intros [[H _]|[H _]]; exact H ].
    + intros e. rewrite !filter_In. destruct (holds e); simpl;
        intros [_ H1] [_ H2]; first [discriminate H1|discriminate H2].
    + intros e e'. rewrite !filter_In. intros [He Hh] [He' Hh'].
      destruct (same_key (fst e) (fst e')) eqn:E; [|reflexivity].
      rewrite (dict_wf_same_key pairs e e' Hwf He He' E) in Hh.
      rewrite Hh in Hh'. discriminate.
Qed.

(** ** The memo of deepcopy *)

Lemma memo_get_None (m : memo) (a : nat) :
  memo_get m a = None <-> ~ In a (map fst m).
Proof.
  induction m as [|[x y] r IH]; simpl.
  { split; [intros _ []|reflexivity]. }
  destruct (Nat.eqb x a) eqn:E.
  - apply Nat.eqb_eq in E. split; [discriminate|]. intros H. exfalso. auto.
  - apply Nat.eqb_neq in E. rewrite IH. split.
    + intros H [H1|H1]; [exact (E H1)|exact (H H1)].
    + intros H H1. apply H. right. exact H1.
Qed.

Lemma memo_get_Some_in (m : memo) (a b : nat) :
  memo_get m a = Some b -> In a (map fst m).
Proof.
  intros H. destruct (in_dec Nat.eq_dec a (map fst m)) as [Hin|Hin];
    [exact Hin|].
  apply memo_get_None in Hin. congruence.
Qed.

Lemma memo_get_cons_ne (m : memo) (a b x : nat) :
  x <> a -> memo_get ((a, b) :: m) x = memo_get m x.
Proof.
  intros Hne. simpl. destruct (Nat.eqb a x) eqn:E; [|reflexivity].
  apply Nat.eqb_eq in E. congruence.
Qed.

Lemma memo_get_cons_eq (m : memo) (a b : nat) :
  memo_get ((a, b) :: m) a = Some b.
Proof. simpl. rewrite Nat.eqb_refl. reflexivity. Qed.

Lemma memo_ext_refl (m : memo) : memo_ext m m.
Proof. split; auto. Qed.

Lemma memo_ext_trans (m1 m2 m3 : memo) :
  memo_ext m1 m2 -> memo_ext m2 m3 -> memo_ext m1 m3.
Proof. intros [H1 L1] [H2 L2]. split; [auto|lia]. Qed.

Lemma memo_ext_cons (m : memo) (a b : nat) :
  memo_get m a = None -> memo_ext m ((a, b) :: m).
Proof.
  intros Ha. split; [|simpl; lia].
  intros x y Hx. rewrite memo_get_cons_ne; [exact Hx|]. congruence.
Qed.

Lemma rename_mono (m m' : memo) (v : value) :
  memo_ext m m' -> in_memo m v -> rename m' v = rename m v /\ in_memo m' v.
Proof.
  intros [Hext _]. destruct v as [| | | | | |a]; simpl; auto.
  destruct (memo_get m a) as [b|] eqn:E; [|congruence].
  intros _. rewrite (Hext a b E). split; [reflexivity|discriminate].
Qed.

Lemma rename_all_mono (m m' : memo) (l : list value) :
  memo_ext m m' -> Forall (in_memo m) l ->
  map (rename m') l = map (rename m) l /\ Forall (in_memo m') l.
Proof.
  intros Hext. induction 1 as [|v r Hv _ [IH1 IH2]]; simpl.
  - split; [reflexivity|constructor].
  - destruct (rename_mono m m' v Hext Hv) as [E Hv'].
    rewrite E, IH1. split; [reflexivity|constructor; assumption].
Qed.

Lemma rename_obj_mono (m m' : memo) (o : object) :
  memo_ext m m' -> Forall (in_memo m) (refs_of o) ->
  rename_obj m' o = rename_obj m o /\ Forall (in_memo m') (refs_of o).
Proof.
  intros Hext Hin.
  destruct (rename_all_mono m m' (refs_of o) Hext Hin) as [E Hin'].
  split; [|exact Hin'].
  destruct o as [l|d]; simpl in *; rewrite E; reflexivity.
Qed.

Lemma copied_mono (h0 : heap) (m m' : memo) (h h' : heap) (a b : nat) :
  copied h0 m h a b -> memo_ext m m' -> h' !! b = h !! b ->
  copied h0 m' h' a b.
Proof.
  intros (o & Ha & Hb & Hin) Hext Hh.
  destruct (rename_obj_mono m m' o Hext Hin) as [E Hin'].
  exists o. rewrite Hh, E. auto.
Qed.

(** A memo has at most as many entries as the copied store has objects. *)
Lemma memo_length_bound (m : memo) (n : nat) :
  List.NoDup (map fst m) ->
  (forall a, In a (map fst m) -> (a < n)%nat) ->
  (length m <= n)%nat.
Proof.
  intros Hnd Hlt.
  rewrite <- (length_map fst m), <- (length_seq n 0).
  apply NoDup_incl_length; [exact Hnd|].
  intros a Ha. apply in_seq. specialize (Hlt a Ha). lia.
Qed.

(** ** deepcopy keeps its invariant *)

Lemma copy_inv_start (h0 : heap) (pending : nat -> Prop) :
  copy_inv h0 pending [] h0.
Proof.
  constructor; simpl; try discriminate; auto.
  - constructor.
  - intros b H1 H2. lia.
Qed.

(** Allocating the (still empty) copy of the object at [a]. *)
Lemma copy_inv_alloc (h0 : heap) (pending : nat -> Prop) (m : memo) (h : heap)
  (a : nat) (o' : object) :
  copy_inv h0 pending m h ->
  memo_get m a = None ->
  (a < length h0)%nat ->
  copy_inv h0 (fun x => pending x \/ x = a) ((a, length h) :: m) (h ++ [o']).
Proof.
  intros I Ha Hlt.
  pose proof (inv_len _ _ _ _ I) as Hlen.
  constructor.
  - intros x Hx. rewrite lookup_app_l by lia. apply (inv_prefix _ _ _ _ I x Hx).
  - rewrite length_app. simpl. lia.
  - simpl. constructor; [apply memo_get_None; exact Ha|apply (inv_nodup _ _ _ _ I)].
  - intros x y H. rewrite length_app. simpl.
    destruct (Nat.eq_dec x a) as [->|Hne].
    + rewrite memo_get_cons_eq in H. injection H as <-. lia.
    + rewrite memo_get_cons_ne in H by exact Hne.
      pose proof (inv_range _ _ _ _ I x y H). lia.
  - intros x x' y Hx Hx'.
    destruct (Nat.eq_dec x a) as [->|Hne], (Nat.eq_dec x' a) as [->|Hne'].
    + reflexivity.
    + rewrite memo_get_cons_eq in Hx. injection Hx as <-.
      rewrite memo_get_cons_ne in Hx' by exact Hne'.
      pose proof (inv_range _ _ _ _ I x' _ Hx'). lia.
    + rewrite memo_get_cons_eq in Hx'. injection Hx' as <-.
      rewrite memo_get_cons_ne in Hx by exact Hne.
      pose proof (inv_range _ _ _ _ I x _ Hx). lia.
    + rewrite memo_get_cons_ne in Hx by exact Hne.
      rewrite memo_get_cons_ne in Hx' by exact Hne'.
      apply (inv_inj _ _ _ _ I x x' y Hx Hx').
  - intros y Hy1 Hy2. rewrite length_app in Hy2. simpl in Hy2.
    destruct (Nat.eq_dec y (length h)) as [->|Hne].
    + exists a. apply memo_get_cons_eq.
    + destruct (inv_surj _ _ _ _ I y Hy1) as [x Hx]; [lia|].
      exists x. rewrite memo_get_cons_ne; [exact Hx|]. congruence.
  - intros x y H Hnp.
    assert (Hne : x <> a) by (intros ->; apply Hnp; right; reflexivity).
    rewrite memo_get_cons_ne in H by exact Hne.
    apply (copied_mono h0 m _ h).
    + apply (inv_done _ _ _ _ I x y H). intros Hp. apply Hnp. left. exact Hp.
    + apply memo_ext_cons. exact Ha.
    + pose proof (inv_range _ _ _ _ I x y H). apply lookup_app_l. lia.
Qed.

(** Filling the copy of the object at [a] once its elements are copied. *)
Lemma copy_inv_fill (h0 : heap) (pending : nat -> Prop) (m : memo) (h : heap)
  (a b : nat) (o : object) :
  copy_inv h0 (fun x => pending x \/ x = a) m h ->
  memo_get m a = Some b ->
  h0 !! a = Some o ->
  Forall (in_memo m) (refs_of o) ->
  copy_inv h0 pending m (<[b := rename_obj m o]> h).
Proof.
  intros I Hb Ho Hin.
  pose proof (inv_range _ _ _ _ I a b Hb) as Hrb.
  constructor.
  - intros x Hx. rewrite list_lookup_insert_ne by lia.
    apply (inv_prefix _ _ _ _ I x Hx).
  - rewrite length_insert. apply (inv_len _ _ _ _ I).
  - apply (inv_nodup _ _ _ _ I).
  - intros x y H. rewrite length_insert. apply (inv_range _ _ _ _ I x y H).
  - apply (inv_inj _ _ _ _ I).
  - intros y Hy1 Hy2. rewrite length_insert in Hy2.
    apply (inv_surj _ _ _ _ I y Hy1 Hy2).
  - intros x y H Hnp. destruct (Nat.eq_dec x a) as [->|Hne].
    + assert (y = b) by congruence. subst y.
      exists o. split; [exact Ho|]. split; [|exact Hin].
      apply list_lookup_insert_eq. lia.
    + apply (copied_mono h0 m m h).
      * apply (inv_done _ _ _ _ I x y H).
        intros [Hp|Hp]; [exact (Hnp Hp)|exact (Hne Hp)].
      * apply memo_ext_refl.
      * apply list_lookup_insert_ne. intros <-.
        apply Hne. apply (inv_inj _ _ _ _ I x a b H Hb).
Qed.

Lemma copy_all_ok (h0 : heap) (d : nat) :
  (forall v m h pending,
      copy_inv h0 pending m h ->
      value_ok (length h0) v ->
      (length h0 <= d + length m)%nat ->
      exists v' m' h',
        deepcopy d v m h = Ok (v', m', h')
        /\ copy_inv h0 pending m' h' /\ memo_ext m m'
        /\ v' = rename m' v /\ in_memo m' v) ->
  forall xs m h pending,
    copy_inv h0 pending m h ->
    Forall (value_ok (length h0)) xs ->
    (length h0 <= d + length m)%nat ->
    exists xs' m' h',
      copy_all (deepcopy d) xs m h = Ok (xs', m', h')
      /\ copy_inv h0 pending m' h' /\ memo_ext m m'
      /\ xs' = map (rename m') xs /\ Forall (in_memo m') xs.
Proof.
  intros IHd. induction xs as [|x r IH]; intros m h pending I Hxs Hlen.
  - exists [], m, h.
    split; [reflexivity|]. split; [exact I|]. split; [apply memo_ext_refl|].
    split; [reflexivity|constructor].
  - inversion Hxs as [|? ? Hx Hr]; subst.
    destruct (IHd x m h pending I Hx Hlen)
      as (x' & m1 & h1 & E1 & I1 & X1 & R1 & M1).
    assert (Hlen1 : (length h0 <= d + length m1)%nat)
      by (destruct X1 as [_ L]; lia).
    destruct (IH m1 h1 pending I1 Hr Hlen1)
      as (r' & m2 & h2 & E2 & I2 & X2 & R2 & M2).
    exists (x' :: r'), m2, h2.
    destruct (rename_mono m1 m2 x X2 M1) as [Ex Mx].
    cbn [copy_all]. rewrite E1, bind_ok, E2, bind_ok.
    split; [reflexivity|]. split; [exact I2|].
    split; [eapply memo_ext_trans; eassumption|].
    split; [simpl; congruence|constructor; assumption].
Qed.

Lemma heap_ok_lookup (h : heap) (a : nat) (o : object) :
  heap_ok h -> h !! a = Some o -> object_ok (length h) o.
Proof. intros Hok Ha. eapply Forall_lookup_1; eassumption. Qed.

Lemma deepcopy_ok (h0 : heap) :
  heap_ok h0 ->
  forall d v m h pending,
    copy_inv h0 pending m h ->
    value_ok (length h0) v ->
    (length h0 <= d + length m)%nat ->
    exists v' m' h',
      deepcopy d v m h = Ok (v', m', h')
      /\ copy_inv h0 pending m' h' /\ memo_ext m m'
      /\ v' = rename m' v /\ in_memo m' v.
Proof.
  intros Hok.
  assert (Hscalar : forall d v m h pending,
             copy_inv h0 pending m h ->
             (forall a, v = VRef a -> memo_get m a <> None) ->
             exists v' m' h',
               deepcopy d v m h = Ok (v', m', h')
               /\ copy_inv h0 pending m' h' /\ memo_ext m m'
               /\ v' = rename m' v /\ in_memo m' v).
  { intros d v m h pending I Hv.
    destruct v as [| | | | | |a];
      try (eexists _, m, h;
           split; [destruct d; reflexivity|];
           split; [exact I|]; split; [apply memo_ext_refl|];
           split; [reflexivity|exact Logic.I]).
    destruct (memo_get m a) as [b|] eqn:Hm; [|exfalso; eapply Hv; eauto].
    exists (VRef b), m, h.
    split; [destruct d; simpl; rewrite Hm; reflexivity|].
    split; [exact I|]. split; [apply memo_ext_refl|].
    simpl. rewrite Hm. split; [reflexivity|discriminate]. }
  assert (Hroom : forall m h pending a,
             copy_inv h0 pending m h -> (a < length h0)%nat ->
             memo_get m a = None -> (S (length m) <= length h0)%nat).
  { intros m h pending a I Hlt Hm.
    apply (memo_length_bound ((a, 0%nat) :: m)).
    - simpl. constructor; [apply memo_get_None; exact Hm|].
      apply (inv_nodup _ _ _ _ I).
    - simpl. intros x [<-|Hx]; [exact Hlt|].
      destruct (memo_get m x) as [y|] eqn:E.
      + apply (inv_range _ _ _ _ I x y E).
      + apply memo_get_None in E. contradiction. }
  induction d as [|d IHd]; intros v m h pending I Hv Hlen.
  - apply Hscalar; [exact I|]. intros a -> Hm. simpl in Hv.
    pose proof (Hroom m h pending a I Hv Hm). lia.
  - destruct v as [| | | | | |a];
      try (apply Hscalar; [exact I|discriminate]).
    destruct (memo_get m a) as [b|] eqn:Hm.
    { apply Hscalar; [exact I|]. intros ? [= <-]. congruence. }
    simpl in Hv.
    destruct (lookup_lt_is_Some_2 h0 a Hv) as [o Ho].
    assert (Hha : h !! a = Some o)
      by (rewrite (inv_prefix _ _ _ _ I a Hv); exact Ho).
    destruct (heap_ok_lookup h0 a o Hok Ho) as [Hrefs _].
    set (b := length h).
    assert (Hcopy : forall o',
               exists xs' m' h',
                 copy_all (deepcopy d) (refs_of o) ((a, b) :: m) (h ++ [o'])
                 = Ok (xs', m', h')
                 /\ copy_inv h0 (fun x => pending x \/ x = a) m' h'
                 /\ memo_ext ((a, b) :: m) m'
                 /\ xs' = map (rename m') (refs_of o)
                 /\ Forall (in_memo m') (refs_of o)).
    { intros o'. apply (copy_all_ok h0 d IHd).
      - apply copy_inv_alloc; assumption.
      - exact Hrefs.
      - simpl. lia. }
    assert (Hfin : forall m' h',
               copy_inv h0 (fun x => pending x \/ x = a) m' h' ->
               memo_ext ((a, b) :: m) m' ->
               Forall (in_memo m') (refs_of o) ->
               copy_inv h0 pending m' (<[b := rename_obj m' o]> h')
               /\ memo_ext m m'
               /\ VRef b = rename m' (VRef a) /\ in_memo m' (VRef a)).
    { intros m' h' I' X' Hin.
      assert (Hb : memo_get m' a = Some b)
        by (apply X'; apply memo_get_cons_eq).
      split; [eapply copy_inv_fill; eassumption|].
      split; [eapply memo_ext_trans; [apply memo_ext_cons; exact Hm|exact X']|].
      simpl. rewrite Hb. split; [reflexivity|discriminate]. }
    destruct o as [l|e].
    + destruct (Hcopy (OList [])) as (xs' & m' & h' & E & I' & X' & R & Hin).
      exists (VRef b), m', (<[b := rename_obj m' (OList l)]> h').
      split; [|apply Hfin; assumption].
      cbn [deepcopy]. rewrite Hm, Hha. fold b.
      simpl refs_of in E. rewrite E, bind_ok. subst xs'. reflexivity.
    + destruct (Hcopy (ODict [])) as (xs' & m' & h' & E & I' & X' & R & Hin).
      exists (VRef b), m', (<[b := rename_obj m' (ODict e)]> h').
      split; [|apply Hfin; assumption].
      cbn [deepcopy]. rewrite Hm, Hha. fold b.
      simpl refs_of in E. rewrite E, bind_ok. subst xs'. reflexivity.
Qed.

(** ** Contents of copies *)

Lemma enumerate_snd (l : list value) : forall i, map snd (enumerate i l) = l.
Proof. induction l as [|x r IH]; simpl; intros i; [|rewrite IH]; reflexivity. Qed.

Lemma combine_fst_map {A B C : Type} (f : B -> C) (d : list (A * B)) :
  map fst (combine (map fst d) (map f (map snd d))) = map fst d.
Proof. induction d as [|[k v] r IH]; simpl; [|rewrite IH]; reflexivity. Qed.

Lemma combine_snd_map {A B C : Type} (f : B -> C) (d : list (A * B)) :
  map snd (combine (map fst d) (map f (map snd d))) = map f (map snd d).
Proof. induction d as [|[k v] r IH]; simpl; [|rewrite IH]; reflexivity. Qed.

Lemma refs_of_rename_obj (m : memo) (o : object) :
  refs_of (rename_obj m o) = map (rename m) (refs_of o).
Proof. destruct o as [l|d]; simpl; [reflexivity|apply combine_snd_map]. Qed.

Lemma rename_obj_wf (m : memo) (d : list (value * value)) :
  dict_wf d -> dict_wf (combine (map fst d) (map (rename m) (map snd d))).
Proof. unfold dict_wf. rewrite combine_fst_map. auto. Qed.

Lemma clone_items_identity (pairs : list (value * value)) (h : heap)
  (s : State) :
  clone_items VNone pairs h s = Ok (pairs, s).
Proof.
  induction pairs as [|[k v] r IH]; simpl; [reflexivity|].
  rewrite IH. reflexivity.
Qed.

(** The last step of [clone] without a callback: the elements of the copy
    at [b] are put into one more new container of the same type. *)
Lemma clone_rebuild (h1 : heap) (b : nat) (o1 : object) (s : State) :
  h1 !! b = Some o1 ->
  match o1 with ODict d => dict_wf d | OList _ => True end ->
  (do pairs <- iterate h1 (VRef b);
   do (obj, s1) <- clone_items VNone pairs h1 s;
   if isinstance_list h1 (VRef b)
   then let (r, h2) := alloc h1 (OList (map snd obj)) in Ok (r, h2, s1)
   else do d <- dict_of_pairs [] obj;
        let (r, h2) := alloc h1 (ODict d) in Ok (r, h2, s1))
  = Ok (VRef (length h1), h1 ++ [o1], s).
Proof.
  intros Hb Hwf. unfold iterate, isinstance_list. rewrite Hb.
  destruct o1 as [l|d]; rewrite bind_ok, clone_items_identity, bind_ok.
  - rewrite enumerate_snd. reflexivity.
  - rewrite dict_of_pairs_wf by exact Hwf. reflexivity.
Qed.

Lemma shape_entries (f g : value -> tree) (ren : value -> value)
  (d : list (value * value)) :
  Forall (fun v => f (ren v) = g v) (map snd d) ->
  map (fun e => (fst e, f (snd e))) (combine (map fst d) (map ren (map snd d)))
  = map (fun e => (fst e, g (snd e))) d.
Proof.
  induction d as [|[k v] r IH]; simpl; intros H; [reflexivity|].
  inversion H as [|? ? Hv Hr]; subst. rewrite Hv, (IH Hr). reflexivity.
Qed.

(** An object keeps its content when the store changes above it only. *)
Lemma shape_frame (h h' : heap) :
  heap_ok h ->
  (forall b, (b < length h)%nat -> h' !! b = h !! b) ->
  forall n v, value_ok (length h) v -> shape n h' v = shape n h v.
Proof.
  intros Hok Hsame. induction n as [|n IH]; intros v Hv;
    destruct v as [| | | | | |a]; try reflexivity.
  simpl in Hv. cbn [shape]. rewrite (Hsame a Hv).
  destruct (h !! a) as [o|] eqn:Ha; [|reflexivity].
  destruct (heap_ok_lookup h a o Hok Ha) as [Hrefs _].
  destruct o as [l|d]; simpl in Hrefs; f_equal.
  - apply map_ext_in. intros x Hx. apply IH.
    rewrite List.Forall_forall in Hrefs. auto.
  - apply map_ext_in. intros [k x] Hx. simpl. f_equal. apply IH.
    rewrite List.Forall_forall in Hrefs. apply Hrefs.
    apply (in_map snd) in Hx. exact Hx.
Qed.

(** A finished deep copy has the content of its original, at every depth. *)
Lemma shape_copy (h0 : heap) (m : memo) (h1 h2 : heap) :
  copy_inv h0 (fun _ => False) m h1 ->
  (forall b, (b < length h1)%nat -> h2 !! b = h1 !! b) ->
  forall n v, in_memo m v -> shape n h2 (rename m v) = shape n h0 v.
Proof.
  intros I Hsame. induction n as [|n IH]; intros v Hv;
    destruct v as [| | | | | |a]; try reflexivity; simpl in Hv;
    destruct (memo_get m a) as [b|] eqn:Hm; try congruence;
    simpl rename; rewrite Hm; [reflexivity|].
  destruct (inv_done _ _ _ _ I a b Hm) as (o & Ha & Hb & Hin); [intros []|].
  pose proof (inv_range _ _ _ _ I a b Hm) as Hr.
  cbn [shape]. rewrite Hsame by lia. rewrite Hb, Ha.
  destruct o as [l|d]; simpl in *; f_equal.
  - rewrite map_map. apply map_ext_in. intros x Hx. apply IH.
    rewrite List.Forall_forall in Hin. auto.
  - apply shape_entries. eapply Forall_impl; [exact Hin|].
    intros x Hx. apply IH. exact Hx.
Qed.

(** Everything a finished deep copy holds is a scalar or a new object. *)
Lemma copy_refs_fresh (h0 : heap) (m : memo) (h1 : heap) (o : object) :
  copy_inv h0 (fun _ => False) m h1 ->
  Forall (in_memo m) (refs_of o) ->
  forall v x, In v (refs_of (rename_obj m o)) -> v = VRef x ->
              (length h0 <= x)%nat.
Proof.
  intros I Hin v x Hv ->. rewrite refs_of_rename_obj in Hv.
  apply in_map_iff in Hv as (w & Hw & Hwin).
  rewrite List.Forall_forall in Hin. specialize (Hin w Hwin).
  destruct w as [| | | | | |a]; try discriminate. simpl in *.
  destruct (memo_get m a) as [b|] eqn:Hm; [|congruence].
  injection Hw as <-. apply (inv_range _ _ _ _ I a b Hm).
Qed.

Lemma reachable_fresh (h0 : heap) (m : memo) (h1 : heap) (o : object) :
  copy_inv h0 (fun _ => False) m h1 ->
  Forall (in_memo m) (refs_of o) ->
  forall v c,
    reachable (h1 ++ [rename_obj m o]) v c ->
    (forall x, v = VRef x -> (length h0 <= x)%nat) ->
    (length h0 <= c)%nat.
Proof.
  intros I Hin v c Hreach. induction Hreach as [a|a o' v c Ha Hv _ IH];
    intros Hfresh.
  - apply Hfresh. reflexivity.
  - apply IH. intros x ->.
    specialize (Hfresh a eq_refl).
    destruct (Nat.lt_ge_cases a (length h1)) as [Hlt|Hge].
    + rewrite lookup_app_l in Ha by exact Hlt.
      destruct (inv_surj _ _ _ _ I a Hfresh Hlt) as [a0 Hm].
      destruct (inv_done _ _ _ _ I a0 a Hm) as (o0 & _ & Hb & Hin0); [intros []|].
      rewrite Hb in Ha. injection Ha as <-.
      eapply copy_refs_fresh; [exact I|exact Hin0|exact Hv|reflexivity].
    + rewrite lookup_app_r in Ha by exact Hge.
      destruct (a - length h1)%nat as [|k] eqn:Hk; simpl in Ha;
        [|destruct k; discriminate].
      injection Ha as <-.
      eapply copy_refs_fresh; [exact I|exact Hin|exact Hv|reflexivity].
Qed.

(** ** clone and clone_deep *)

(** C7: for a list or dict [x] (at address [a] of a well-formed store),
    [clone(x)] returns a new container with the very elements of [x] and
    hence the same content, in storage of its own, and leaves the store as
    it was: storing anything into the clone leaves [x], and every other
    object that existed, unchanged.  [clone_deep(x)] also returns a
    structure with the content of [x] at every depth and leaves the store as
    it was, and every container inside that structure, at whatever depth,
    is new: storing anything into any of them leaves [x], and every other
    object that existed, unchanged. *)
Theorem clone_is_independent_copy (a : nat) (o : object) (h : heap)
  (s : State) :
  heap_ok h ->
  h !! a = Some o ->
  (exists r h',
      clone (VRef a) false VNone h s = Ok (VRef r, h', s)
      /\ (length h <= r)%nat
      /\ h' !! r = Some o
      /\ (forall n, shape n h' (VRef r) = shape n h (VRef a))
      /\ (forall b, (b < length h)%nat -> h' !! b = h !! b)
      /\ (forall o' b, (b < length h)%nat -> <[r := o']> h' !! b = h !! b))
  /\ ((length h <= recursion_limit)%nat ->
      exists r h',
        clone_deep (VRef a) VNone h s = Ok (VRef r, h', s)
        /\ (forall n, shape n h' (VRef r) = shape n h (VRef a))
        /\ (forall b, (b < length h)%nat -> h' !! b = h !! b)
        /\ (forall c, reachable h' (VRef r) c -> (length h <= c)%nat)
        /\ (forall c o' b,
               reachable h' (VRef r) c -> (b < length h)%nat ->
               <[c := o']> h' !! b = h !! b)).
Proof.
  intros Hok Ha.
  pose proof (lookup_lt_Some h a o Ha) as Hlt.
  destruct (heap_ok_lookup h a o Hok Ha) as [Hrefs Hwf].
  split.
  - exists (length (h ++ [o])), ((h ++ [o]) ++ [o]).
    assert (Hr : ((h ++ [o]) ++ [o]) !! length (h ++ [o]) = Some o).
    { rewrite lookup_app_r by lia. rewrite Nat.sub_diag. reflexivity. }
    assert (Hpre : forall b, (b < length h)%nat ->
                             ((h ++ [o]) ++ [o]) !! b = h !! b).
    { intros b Hb. rewrite <- app_assoc. apply lookup_app_l. exact Hb. }
    split; [|split; [|split; [exact Hr|split; [|split; [exact Hpre|]]]]].
    + unfold clone. rewrite bind_ok. unfold copy_copy, alloc. rewrite Ha.
      apply clone_rebuild; [|exact Hwf].
      rewrite lookup_app_r by lia. rewrite Nat.sub_diag. reflexivity.
    + rewrite length_app. lia.
    + intros [|n]; [reflexivity|]. cbn [shape]. rewrite Hr, Ha.
      destruct o as [l|d]; simpl in Hrefs; f_equal; apply map_ext_in.
      * intros x Hx. apply (shape_frame h _ Hok Hpre).
        rewrite List.Forall_forall in Hrefs. auto.
      * intros [k x] Hx. simpl. f_equal. apply (shape_frame h _ Hok Hpre).
        rewrite List.Forall_forall in Hrefs. apply Hrefs.
        apply (in_map snd) in Hx. exact Hx.
    + intros o' b Hb. rewrite list_lookup_insert_ne; [apply Hpre; exact Hb|].
      rewrite length_app. lia.
  - intros Hlim.
    destruct (deepcopy_ok h Hok recursion_limit (VRef a) [] h (fun _ => False))
      as (v' & m & h1 & E & I & _ & Hv' & Hin); [apply copy_inv_start|exact Hlt|simpl; lia|].
    simpl in Hv', Hin. destruct (memo_get m a) as [b0|] eqn:Hm; [|congruence].
    subst v'.
    destruct (inv_done _ _ _ _ I a b0 Hm) as (o2 & Ha2 & Hb0 & Hin2); [intros []|].
    assert (o2 = o) by congruence. subst o2.
    pose proof (inv_len _ _ _ _ I) as Hlen.
    exists (length h1), (h1 ++ [rename_obj m o]).
    assert (Hr : (h1 ++ [rename_obj m o]) !! length h1
                 = Some (rename_obj m o)).
    { rewrite lookup_app_r by lia. rewrite Nat.sub_diag. reflexivity. }
    assert (Hpre1 : forall b, (b < length h1)%nat ->
                              (h1 ++ [rename_obj m o]) !! b = h1 !! b).
    { intros b Hb. apply lookup_app_l. exact Hb. }
    assert (Hpre : forall b, (b < length h)%nat ->
                             (h1 ++ [rename_obj m o]) !! b = h !! b).
    { intros b Hb. rewrite Hpre1 by lia. apply (inv_prefix _ _ _ _ I b Hb). }
    assert (Hfresh : forall c, reachable (h1 ++ [rename_obj m o])
                                 (VRef (length h1)) c ->
                               (length h <= c)%nat).
    { intros c Hc. apply (reachable_fresh h m h1 o I Hin2 _ c Hc).
      intros x [= <-]. exact Hlen. }
    split; [|split; [|split; [exact Hpre|split; [exact Hfresh|]]]].
    + unfold clone_deep, clone. rewrite E. rewrite !bind_ok.
      apply clone_rebuild; [exact Hb0|].
      destruct o as [l|d]; [exact Logic.I|]. apply rename_obj_wf. exact Hwf.
    + intros [|n]; [reflexivity|]. cbn [shape]. rewrite Hr, Ha.
      destruct o as [l|d]; simpl in *; f_equal.
      * rewrite map_map. apply map_ext_in. intros x Hx.
        apply (shape_copy h m h1 _ I Hpre1).
        rewrite List.Forall_forall in Hin2. auto.
      * apply shape_entries. eapply Forall_impl; [exact Hin2|].
        intros x Hx. apply (shape_copy h m h1 _ I Hpre1). exact Hx.
    + intros c o' b Hc Hb. rewrite list_lookup_insert_ne; [apply Hpre; exact Hb|].
      specialize (Hfresh c Hc). lia.
Qed.

(** * Further properties of the module *)

(** ** More on dicts *)

Lemma dict_get_congr (d : list (value * value)) (a b : value) :
  same_key a b = true -> dict_get d a = dict_get d b.
Proof.
  intros Hab. induction d as [|[k v] r IH]; simpl; [reflexivity|].
  rewrite (same_key_sym k a), (same_key_sym k b), (same_key_congr a b k Hab).
  rewrite IH. reflexivity.
Qed.

Lemma dict_get_set_eq (d : list (value * value)) (k0 k v : value) :
  same_key k0 k = true -> dict_get (dict_set d k0 v) k = Some v.
Proof.
  intros H. rewrite <- (dict_get_congr _ k0 k H).
  apply dict_get_set_same. eapply same_key_hashable_l. exact H.
Qed.

Lemma dict_get_None (d : list (value * value)) (k : value) :
  dict_get d k = None <-> Forall (fun e => same_key (fst e) k = false) d.
Proof.
  induction d as [|[k' v] r IH]; simpl.
  - split; [constructor|reflexivity].
  - destruct (same_key k' k) eqn:E; split.
    + discriminate.
    + intros H. inversion H; subst. simpl in *. congruence.
    + intros H. constructor; [exact E|]. apply IH. exact H.
    + intros H. inversion H; subst. apply IH. assumption.
Qed.

Lemma dict_get_In (d : list (value * value)) (x : value * value) :
  In x d -> hashable (fst x) = true -> dict_get d (fst x) <> None.
Proof.
  intros Hin Hh Hn. apply dict_get_None in Hn.
  rewrite List.Forall_forall in Hn. specialize (Hn x Hin).
  rewrite same_key_refl in Hn by exact Hh. discriminate.
Qed.

Lemma dict_update_cons (d r : list (value * value)) (k v : value) :
  dict_update d ((k, v) :: r) = dict_update (dict_set d k v) r.
Proof. reflexivity. Qed.

(** After [d.update(e)], a key of [e] has the value [e] gives it and any
    other key has the value it had. *)
Lemma dict_update_get (e : list (value * value)) :
  dict_wf e ->
  forall d k,
    dict_get (dict_update d e) k =
    match dict_get e k with Some v => Some v | None => dict_get d k end.
Proof.
  induction e as [|[k0 v0] r IH]; intros Hwf d k; [reflexivity|].
  destruct Hwf as [Hh Hd]. simpl in Hh, Hd.
  inversion Hh as [|? ? Hk0 Hr]; subst. destruct Hd as [Hfresh Hd].
  rewrite dict_update_cons, (IH (conj Hr Hd)). simpl.
  destruct (same_key k0 k) eqn:E.
  - assert (Hnone : dict_get r k = None).
    { apply dict_get_None. rewrite List.Forall_forall in Hfresh.
      apply List.Forall_forall. intros x Hx.
      rewrite same_key_sym, <- (same_key_congr k0 k (fst x) E).
      apply Hfresh. apply in_map. exact Hx. }
    rewrite Hnone. apply dict_get_set_eq. exact E.
  - rewrite dict_get_set_other by exact E. reflexivity.
Qed.

Lemma dict_fill_cons (d r : list (value * value)) (k v : value) :
  dict_fill d ((k, v) :: r) =
  dict_fill (match dict_get d k with
             | Some _ => d
             | None => dict_set d k v
             end) r.
Proof. reflexivity. Qed.

(** After the missing keys of [e] are filled in, a key that was present has
    the value it had, and any other key has the first value [e] gives. *)
Lemma dict_fill_get (e : list (value * value)) :
  forall d k,
    dict_get (dict_fill d e) k =
    match dict_get d k with Some v => Some v | None => dict_get e k end.
Proof.
  induction e as [|[k0 v0] r IH]; intros d k.
  - simpl. destruct (dict_get d k); reflexivity.
  - rewrite dict_fill_cons, IH. simpl.
    destruct (dict_get d k0) as [w|] eqn:E0.
    + destruct (dict_get d k) eqn:Ek; [reflexivity|].
      destruct (same_key k0 k) eqn:E; [|reflexivity].
      rewrite (dict_get_congr d k0 k E) in E0. congruence.
    + destruct (same_key k0 k) eqn:E.
      * rewrite dict_get_set_eq by exact E.
        rewrite <- (dict_get_congr d k0 k E), E0. reflexivity.
      * rewrite dict_get_set_other by exact E. reflexivity.
Qed.

Lemma dict_fill_prefix (e : list (value * value)) :
  forall d, exists extra, dict_fill d e = d ++ extra.
Proof.
  induction e as [|[k0 v0] r IH]; intros d.
  - exists []. simpl. rewrite app_nil_r. reflexivity.
  - rewrite dict_fill_cons. destruct (dict_get d k0) eqn:E0; [apply IH|].
    apply dict_get_None in E0. rewrite dict_set_fresh by exact E0.
    destruct (IH (d ++ [(k0, v0)])) as [extra ->].
    exists ((k0, v0) :: extra). rewrite <- app_assoc. reflexivity.
Qed.

Lemma dict_fill_present (e : list (value * value)) :
  forall d,
    (forall x, In x e -> dict_get d (fst x) <> None) -> dict_fill d e = d.
Proof.
  induction e as [|[k0 v0] r IH]; intros d H; [reflexivity|].
  rewrite dict_fill_cons.
  destruct (dict_get d k0) eqn:E0.
  - apply IH. intros x Hx. apply H. right. exact Hx.
  - exfalso. apply (H (k0, v0)); [left; reflexivity|exact E0].
Qed.

Lemma first_found_app (l1 l2 : list (list (value * value))) (k : value) :
  first_found (l1 ++ l2) k =
  match first_found l1 k with Some v => Some v | None => first_found l2 k end.
Proof.
  induction l1 as [|d r IH]; simpl; [reflexivity|].
  destruct (dict_get d k); [reflexivity|exact IH].
Qed.

Lemma dict_update_all_get (es : list (list (value * value))) :
  Forall dict_wf es ->
  forall d k,
    dict_get (fold_left dict_update es d) k = first_found (rev es ++ [d]) k.
Proof.
  induction 1 as [|e r He _ IH]; intros d k.
  - simpl. destruct (dict_get d k); reflexivity.
  - simpl fold_left. rewrite IH. simpl rev. rewrite <- app_assoc.
    rewrite !first_found_app. simpl.
    rewrite (dict_update_get e He).
    destruct (first_found (rev r) k); [reflexivity|].
    destruct (dict_get e k); [reflexivity|].
    destruct (dict_get d k); reflexivity.
Qed.

Lemma dict_fill_all_get (es : list (list (value * value))) :
  forall d k,
    dict_get (fold_left dict_fill es d) k = first_found (d :: es) k.
Proof.
  induction es as [|e r IH]; intros d k.
  - simpl. destruct (dict_get d k); reflexivity.
  - simpl fold_left. rewrite IH. simpl. rewrite dict_fill_get.
    destruct (dict_get d k); [reflexivity|].
    destruct (dict_get e k); reflexivity.
Qed.

(** ** assign and defaults on dicts *)

Lemma assign_items_dict (a : nat) (items : list (value * value)) :
  Forall (fun k => hashable k = true) (map fst items) ->
  forall (d : list (value * value)) (h : heap) (s : State),
    h !! a = Some (ODict d) ->
    assign_items (VRef a) VNone items h s =
    Ok (<[a := ODict (dict_update d items)]> h, s).
Proof.
  induction items as [|[k v] r IH]; simpl; intros Hh d h s Ha.
  - rewrite list_insert_id by exact Ha. reflexivity.
  - inversion Hh as [|? ? Hk Hr]; subst.
    rewrite Ha. unfold dict_setitem. rewrite Hk. simpl.
    rewrite (IH Hr (dict_set d k v)).
    + rewrite list_insert_insert_eq. reflexivity.
    + apply list_lookup_insert_eq. eapply lookup_lt_Some. exact Ha.
Qed.

Lemma defaults_items_dict (a : nat) (items : list (value * value)) :
  Forall (fun k => hashable k = true) (map fst items) ->
  forall (d : list (value * value)) (h : heap),
    h !! a = Some (ODict d) ->
    defaults_items (VRef a) items h =
    Ok (<[a := ODict (dict_fill d items)]> h).
Proof.
  induction items as [|[k v] r IH]; intros Hh d h Ha.
  - simpl. rewrite list_insert_id by exact Ha. reflexivity.
  - simpl in Hh. inversion Hh as [|? ? Hk Hr]; subst.
    cbn [defaults_items]. unfold dict_setdefault. rewrite Ha, Hk.
    rewrite dict_fill_cons. destruct (dict_get d k); rewrite bind_ok.
    + apply (IH Hr). exact Ha.
    + rewrite (IH Hr (dict_set d k v)).
      * rewrite list_insert_insert_eq. reflexivity.
      * apply list_lookup_insert_eq. eapply lookup_lt_Some. exact Ha.
Qed.

Lemma sources_at_insert (a : nat) (h : heap) (o : object) (bs : list nat)
  (es : list (list (value * value))) :
  sources_at a h bs es -> sources_at a (<[a := o]> h) bs es.
Proof.
  unfold sources_at. induction 1 as [|b e bs es (Hb & He & Hw) _ IH];
    constructor; [|exact IH].
  split; [exact Hb|]. split; [|exact Hw].
  rewrite list_lookup_insert_ne by congruence. exact He.
Qed.

Lemma sources_at_wf (a : nat) (h : heap) (bs : list nat)
  (es : list (list (value * value))) :
  sources_at a h bs es -> Forall dict_wf es.
Proof.
  unfold sources_at. induction 1 as [|b e bs es (_ & _ & Hw) _ IH];
    constructor; assumption.
Qed.

Lemma assign_sources_dict (a : nat) (bs : list nat) :
  forall (es : list (list (value * value))) (d : list (value * value))
         (h : heap) (s : State),
    h !! a = Some (ODict d) ->
    sources_at a h bs es ->
    assign_sources (VRef a) VNone (map VRef bs) h s =
    Ok (<[a := ODict (fold_left dict_update es d)]> h, s).
Proof.
  induction bs as [|b bs IH]; intros es d h s Ha Hsrc;
    inversion Hsrc as [|? e ? es' (Hb & He & [Hh Hd]) Hrest]; subst.
  - simpl. rewrite list_insert_id by exact Ha. reflexivity.
  - cbn [map assign_sources]. unfold iteritems. rewrite He, bind_ok.
    rewrite (assign_items_dict a e Hh d h s Ha), bind_ok.
    rewrite (IH es' (dict_update d e)).
    + rewrite list_insert_insert_eq. reflexivity.
    + apply list_lookup_insert_eq. eapply lookup_lt_Some. exact Ha.
    + apply sources_at_insert. exact Hrest.
Qed.

Lemma defaults_sources_dict (a : nat) (bs : list nat) :
  forall (es : list (list (value * value))) (d : list (value * value))
         (h : heap),
    h !! a = Some (ODict d) ->
    sources_at a h bs es ->
    defaults_sources (VRef a) (map VRef bs) h =
    Ok (<[a := ODict (fold_left dict_fill es d)]> h).
Proof.
  induction bs as [|b bs IH]; intros es d h Ha Hsrc;
    inversion Hsrc as [|? e ? es' (Hb & He & [Hh Hd]) Hrest]; subst.
  - simpl. rewrite list_insert_id by exact Ha. reflexivity.
  - cbn [map defaults_sources]. unfold iteritems. rewrite He, bind_ok.
    rewrite (defaults_items_dict a e Hh d h Ha), bind_ok.
    rewrite (IH es' (dict_fill d e)).
    + rewrite list_insert_insert_eq. reflexivity.
    + apply list_lookup_insert_eq. eapply lookup_lt_Some. exact Ha.
    + apply sources_at_insert. exact Hrest.
Qed.

(** X1: [assign(obj, *sources)] on dicts, without a callback: afterwards
    [obj] holds, under every key, the value of the last source that has the
    key, and its own former value when no source has it.  Only [obj]
    changes; it is returned. *)
Theorem assign_last_source_wins (a b : nat) (bs : list nat)
  (e : list (value * value)) (es : list (list (value * value)))
  (d : list (value * value)) (h : heap) (s : State) :
  h !! a = Some (ODict d) ->
  sources_at a h (b :: bs) (e :: es) ->
  exists d',
    assign (VRef a) (map VRef (b :: bs)) [] h s
    = Ok (VRef a, <[a := ODict d']> h, s)
    /\ forall k, dict_get d' k = first_found (rev (e :: es) ++ [d]) k.
Proof.
  intros Ha Hsrc.
  exists (fold_left dict_update (e :: es) d). split.
  - unfold assign. simpl kargs_get. cbn [is_None].
    assert (Hlast : exists x, last (map VRef (b :: bs)) = Some (VRef x)).
    { clear. revert b. induction bs as [|b' bs IH]; intros b.
      - exists b. reflexivity.
      - destruct (IH b') as [x Hx]. exists x. exact Hx. }
    destruct Hlast as [x ->]. cbn [callable]. rewrite bind_ok.
    rewrite (assign_sources_dict a (b :: bs) (e :: es) d h s Ha Hsrc).
    reflexivity.
  - intros k. apply dict_update_all_get. eapply sources_at_wf. exact Hsrc.
Qed.

(** X2: [defaults(obj, *sources)] on dicts: afterwards [obj] holds, under
    every key, its own former value when it had the key, and otherwise the
    value of the first source that has it.  The entries [obj] had stay
    where they were, new keys come after them; and calling [defaults] again
    with the same sources changes nothing more. *)
Theorem defaults_first_value_wins (a : nat) (bs : list nat)
  (es : list (list (value * value))) (d : list (value * value)) (h : heap) :
  h !! a = Some (ODict d) ->
  sources_at a h bs es ->
  exists extra,
    let h' := <[a := ODict (d ++ extra)]> h in
    defaults (VRef a) (map VRef bs) h = Ok (VRef a, h')
    /\ (forall k, dict_get (d ++ extra) k = first_found (d :: es) k)
    /\ defaults (VRef a) (map VRef bs) h' = Ok (VRef a, h').
Proof.
  intros Ha Hsrc.
  assert (Hpre : forall es d, exists extra, fold_left dict_fill es d = d ++ extra).
  { clear. induction es as [|e r IH]; intros d.
    - exists []. simpl. rewrite app_nil_r. reflexivity.
    - simpl. destruct (dict_fill_prefix e d) as [x1 ->].
      destruct (IH (d ++ x1)) as [x2 ->]. exists (x1 ++ x2).
      rewrite <- app_assoc. reflexivity. }
  destruct (Hpre es d) as [extra Hextra].
  exists extra. cbv zeta.
  assert (Hrun : defaults (VRef a) (map VRef bs) h
                 = Ok (VRef a, <[a := ODict (d ++ extra)]> h)).
  { unfold defaults.
    rewrite (defaults_sources_dict a bs es d h Ha Hsrc), Hextra. reflexivity. }
  split; [exact Hrun|]. split.
  - intros k. rewrite <- Hextra. apply dict_fill_all_get.
  - unfold defaults.
    rewrite (defaults_sources_dict a bs es (d ++ extra)).
    + rewrite list_insert_insert_eq.
      assert (Hfix : fold_left dict_fill es (d ++ extra) = d ++ extra).
      { assert (Hall : forall e x, In e es -> In x e ->
                                   dict_get (d ++ extra) (fst x) <> None).
        { intros e x He Hx. rewrite <- Hextra, dict_fill_all_get.
          simpl. destruct (dict_get d (fst x)); [discriminate|].
          assert (Hw : dict_wf e).
          { pose proof (sources_at_wf a h bs es Hsrc) as Hwf.
            rewrite List.Forall_forall in Hwf. auto. }
          clear -He Hx Hw. induction es as [|e' r IH]; [destruct He|].
          simpl. destruct He as [->|He].
          - pose proof (dict_get_In e x Hx) as Hn.
            destruct (dict_get e (fst x)); [discriminate|].
            exfalso. apply Hn; [|reflexivity].
            destruct Hw as [Hh _]. rewrite List.Forall_forall in Hh.
            apply Hh. apply in_map. exact Hx.
          - destruct (dict_get e' (fst x)); [discriminate|]. apply IH. exact He. }
        clear -Hall. revert Hall. generalize (d ++ extra) as d0.
        induction es as [|e r IH]; intros d0 Hall; [reflexivity|].
        simpl. rewrite (dict_fill_present e d0).
        - apply IH. intros e' x He' Hx. apply (Hall e' x); [right|]; assumption.
        - intros x Hx. apply (Hall e x); [left; reflexivity|exact Hx]. }
      rewrite Hfix. reflexivity.
    + apply list_lookup_insert_eq. eapply lookup_lt_Some. exact Ha.
    + apply sources_at_insert. exact Hsrc.
Qed.

Lemma setitem_frame (h h' : heap) (obj key v : value) :
  setitem h obj key v = Ok h' ->
  length h' = length h /\ forall b, obj <> VRef b -> h' !! b = h !! b.
Proof.
  unfold setitem. destruct obj as [| | | | | |a]; try discriminate.
  destruct (h !! a) as [[l|d]|]; try discriminate.
  - destruct (index_of key) as [i|]; [|discriminate].
    destruct (list_setitem l i v) as [l'|]; [|discriminate].
    simpl. intros [= <-]. split; [apply length_insert|].
    intros b Hb. apply list_lookup_insert_ne. congruence.
  - destruct (dict_setitem d key v) as [d'|]; [|discriminate].
    simpl. intros [= <-]. split; [apply length_insert|].
    intros b Hb. apply list_lookup_insert_ne. congruence.
Qed.

Lemma assign_items_frame (obj callback : value)
  (items : list (value * value)) :
  forall (h h' : heap) (s s' : State),
    assign_items obj callback items h s = Ok (h', s') ->
    length h' = length h /\ forall b, obj <> VRef b -> h' !! b = h !! b.
Proof.
  induction items as [|[k v] r IH]; intros h h' s s' H.
  - injection H as <- <-. auto.
  - cbn [assign_items] in H.
    destruct (if is_None callback then _ else _) as [[w s1]|]; [|discriminate].
    rewrite bind_ok in H.
    destruct (setitem h obj k w) as [h1|] eqn:Hset; [|discriminate].
    rewrite bind_ok in H.
    destruct (setitem_frame _ _ _ _ _ Hset) as [L1 F1].
    destruct (IH _ _ _ _ H) as [L2 F2].
    split; [congruence|]. intros b Hb. rewrite F2, F1 by exact Hb. reflexivity.
Qed.

Lemma assign_sources_frame (obj callback : value) (sources : list value) :
  forall (h h' : heap) (s s' : State),
    assign_sources obj callback sources h s = Ok (h', s') ->
    length h' = length h /\ forall b, obj <> VRef b -> h' !! b = h !! b.
Proof.
  induction sources as [|src r IH]; intros h h' s s' H.
  - injection H as <- <-. auto.
  - cbn [assign_sources] in H.
    destruct (iteritems h src) as [items|]; [|discriminate].
    rewrite bind_ok in H.
    destruct (assign_items obj callback items h s) as [[h1 s1]|] eqn:Hit;
      [|discriminate].
    rewrite bind_ok in H.
    destruct (assign_items_frame _ _ _ _ _ _ _ Hit) as [L1 F1].
    destruct (IH _ _ _ _ H) as [L2 F2].
    split; [congruence|]. intros b Hb. rewrite F2, F1 by exact Hb. reflexivity.
Qed.

(** X3: whatever its arguments, when [assign] returns, it returns [obj]
    itself, has created no object, and has left every object other than
    [obj] as it was (the sources included, unless one of them is [obj]). *)
Theorem assign_changes_obj_only (obj : value) (sources : list value)
  (kargs : list (string * value)) (h h' : heap) (s s' : State) (r : value) :
  assign obj sources kargs h s = Ok (r, h', s') ->
  r = obj
  /\ length h' = length h
  /\ forall b, obj <> VRef b -> h' !! b = h !! b.
Proof.
  unfold assign. intros H.
  destruct (if is_None (kargs_get kargs "callback") then _ else _)
    as [[srcs cb]|]; [|discriminate].
  rewrite bind_ok in H.
  destruct (assign_sources obj cb srcs h s) as [[h1 s1]|] eqn:Hs;
    [|discriminate].
  rewrite bind_ok in H. injection H as <- <- <-.
  split; [reflexivity|]. eapply assign_sources_frame. exact Hs.
Qed.

(** X4: a callable passed as the last positional argument of [assign] is
    the callback: [assign(obj, *sources, f)] does what
    [assign(obj, *sources, callback=f)] does (when no callback comes by
    keyword). *)
Theorem assign_trailing_callable (obj : value) (sources : list value)
  (kargs : list (string * value)) (f : nat) (h : heap) (s : State) :
  kargs_get kargs "callback" = VNone ->
  assign obj (sources ++ [VFunc f]) kargs h s
  = assign obj sources [("callback"%string, VFunc f)] h s.
Proof.
  intros Hk. unfold assign. rewrite Hk. simpl kargs_get. cbn [is_None].
  rewrite last_snoc. cbn [callable]. rewrite removelast_last. reflexivity.
Qed.

(** ** keys, values, pairs, has, functions_ *)

Lemma lookup_map {A B : Type} (f : A -> B) (l : list A) :
  forall i, map f l !! i = option_map f (l !! i).
Proof.
  induction l as [|x r IH]; intros [|i]; simpl; try reflexivity. apply IH.
Qed.

Lemma pairs_items_spec (ps : list (value * value)) :
  forall (h hp : heap) (xs : list value),
    pairs_items ps h = (xs, hp) ->
    length xs = length ps
    /\ length hp = (length h + length ps)%nat
    /\ (forall b, (b < length h)%nat -> hp !! b = h !! b)
    /\ forall i k v,
        ps !! i = Some (k, v) ->
        xs !! i = Some (VRef (length h + i))
        /\ hp !! (length h + i)%nat = Some (OList [k; v]).
Proof.
  induction ps as [|[k0 v0] r IH]; intros h hp xs H.
  - injection H as <- <-.
    split; [reflexivity|]. split; [simpl; lia|]. split; [auto|].
    intros i k v Hi. destruct i; discriminate.
  - cbn [pairs_items alloc] in H.
    destruct (pairs_items r (h ++ [OList [k0; v0]])) as [xs1 h2] eqn:E.
    injection H as <- <-.
    destruct (IH _ _ _ E) as (L1 & L2 & F & P).
    rewrite length_app in L2, F, P. simpl in L2, F, P.
    split; [simpl; congruence|]. split; [simpl; lia|]. split.
    + intros b Hb. rewrite F by lia. apply lookup_app_l. exact Hb.
    + intros [|i] k v Hi; simpl in Hi.
      * injection Hi as <- <-. rewrite Nat.add_0_r. split; [reflexivity|].
        rewrite F by lia. rewrite lookup_app_r by lia.
        rewrite Nat.sub_diag. reflexivity.
      * destruct (P i k v Hi) as [P1 P2].
        replace (length h + S i)%nat with (length h + 1 + i)%nat by lia.
        split; [exact P1|exact P2].
Qed.

(** X5: for a list or dict [obj], [keys(obj)], [values(obj)] and
    [pairs(obj)] return new lists of one and the same length, and the
    [i]-th element of [pairs(obj)] is a new two-element list holding the
    [i]-th key and the [i]-th value.  None of the three changes an object
    that existed. *)
Theorem keys_values_pairs_agree (obj : value) (ps : list (value * value))
  (h : heap) :
  iterate h obj = Ok ps ->
  exists ks vs xs hp rp,
    keys obj h = Ok (VRef (length h), h ++ [OList ks])
    /\ values obj h = Ok (VRef (length h), h ++ [OList vs])
    /\ pairs_ obj h = Ok (VRef rp, hp)
    /\ hp !! rp = Some (OList xs)
    /\ length ks = length vs /\ length xs = length ks
    /\ (forall b, (b < length h)%nat -> hp !! b = h !! b)
    /\ forall i k v,
        ks !! i = Some k -> vs !! i = Some v ->
        exists x, (length h <= x)%nat
                  /\ xs !! i = Some (VRef x)
                  /\ hp !! x = Some (OList [k; v]).
Proof.
  intros Hit.
  destruct (pairs_items ps h) as [xs h1] eqn:E.
  destruct (pairs_items_spec ps h h1 xs E) as (L1 & L2 & F & P).
  exists (map fst ps), (map snd ps), xs, (h1 ++ [OList xs]), (length h1).
  split; [unfold keys; rewrite Hit; reflexivity|].
  split; [unfold values; rewrite Hit; reflexivity|].
  split; [unfold pairs_; rewrite Hit, bind_ok, E; reflexivity|].
  split; [rewrite lookup_app_r by lia; rewrite Nat.sub_diag; reflexivity|].
  split; [rewrite !length_map; reflexivity|].
  split; [rewrite length_map; exact L1|].
  split.
  - intros b Hb. rewrite lookup_app_l by lia. apply F. exact Hb.
  - intros i k v Hk Hv. rewrite lookup_map in Hk, Hv.
    destruct (ps !! i) as [[k' v']|] eqn:Hi; [|discriminate].
    simpl in Hk, Hv. injection Hk as <-. injection Hv as <-.
    destruct (P i k' v' Hi) as [P1 P2].
    exists (length h + i)%nat. split; [lia|]. split; [exact P1|].
    rewrite lookup_app_l; [exact P2|].
    apply lookup_lt_Some in Hi. lia.
Qed.

Lemma has_dict_keys (d : list (value * value)) (k : value) :
  existsb (fun k' => same_key k' k) (map fst d) =
  match dict_get d k with Some _ => true | None => false end.
Proof.
  induction d as [|[k' v] r IH]; simpl; [reflexivity|].
  destruct (same_key k' k); [reflexivity|exact IH].
Qed.

Lemma has_list_keys (l : list value) (i : Z) :
  forall n : nat,
    existsb (fun k' => same_key k' (VInt i)) (map fst (enumerate n l)) =
    (Z.of_nat n <=? i) && (i <? Z.of_nat (n + length l)).
Proof.
  induction l as [|x r IH]; intros n; simpl.
  - symmetry. apply andb_false_iff.
    destruct (Z.leb_spec (Z.of_nat n) i); [right|left; reflexivity].
    apply Z.ltb_ge. lia.
  - rewrite IH. destruct (same_key (VInt (Z.of_nat n)) (VInt i)) eqn:E.
    + apply same_key_int in E. subst i. simpl. symmetry.
      apply andb_true_iff. split; [apply Z.leb_le|apply Z.ltb_lt]; lia.
    + assert (Hne : Z.of_nat n <> i).
      { intros <-. rewrite (proj2 (same_key_int _ _) eq_refl) in E.
        discriminate. }
      simpl.
      replace (Z.of_nat (n + S (length r))) with (Z.of_nat (S n + length r))
        by lia.
      f_equal.
      destruct (Z.leb_spec (Z.of_nat (S n)) i), (Z.leb_spec (Z.of_nat n) i);
        try reflexivity; lia.
Qed.

(** X6: [has(obj, key)] never raises on a list or dict.  On a dict it tells
    whether the key is present (an unhashable key is simply absent); on a
    list it tells whether an integer is one of the indices [0 .. n-1], so a
    negative integer is never found. *)
Theorem has_tells_presence (a : nat) (o : object) (key : value) (h : heap) :
  h !! a = Some o ->
  match o with
  | ODict d =>
      has (VRef a) key h
      = Ok (match dict_get d key with Some _ => true | None => false end)
      /\ (hashable key = false -> has (VRef a) key h = Ok false)
  | OList l =>
      (exists b, has (VRef a) key h = Ok b)
      /\ forall i,
          has (VRef a) (VInt i) h
          = Ok ((0 <=? i) && (i <? Z.of_nat (length l)))
  end.
Proof.
  intros Ha. unfold has, iterate. rewrite Ha. destruct o as [l|d].
  - split; [eexists; reflexivity|]. intros i. rewrite bind_ok.
    rewrite (has_list_keys l i 0). reflexivity.
  - rewrite bind_ok, has_dict_keys. split; [reflexivity|].
    intros Hk. destruct (dict_get d key) as [w|] eqn:E; [|reflexivity].
    exfalso. clear -Hk E. induction d as [|[k' v'] r IH]; [discriminate|].
    simpl in E. destruct (same_key k' key) eqn:Es; [|auto].
    apply same_key_hashable_r in Es. congruence.
Qed.

(** X7: on a dict, [functions_(obj)] returns a new list with exactly the
    keys whose value is callable, and changes nothing; on a list it raises
    [AttributeError] (it walks [obj] with the dict item iterator), although
    [keys] accepts the same list. *)
Theorem functions_lists_callable_keys (a : nat) (o : object) (h : heap) :
  h !! a = Some o ->
  match o with
  | ODict d =>
      exists ks,
        functions_ (VRef a) h = Ok (VRef (length h), h ++ [OList ks])
        /\ forall k, In k ks <-> exists v, In (k, v) d /\ callable v = true
  | OList l =>
      functions_ (VRef a) h = Raise AttributeError
      /\ exists ks, keys (VRef a) h = Ok (VRef (length h), h ++ [OList ks])
  end.
Proof.
  intros Ha. unfold functions_, keys, iteritems, iterate. rewrite Ha.
  destruct o as [l|d].
  - split; [reflexivity|eexists; reflexivity].
  - eexists. split; [reflexivity|]. intros k. rewrite in_map_iff. split.
    + intros ([k' v] & <- & Hin). apply filter_In in Hin as [Hin Hc].
      exists v. auto.
    + intros (v & Hin & Hc). exists (k, v). split; [reflexivity|].
      apply filter_In. auto.
Qed.

(** ** map_values *)

Lemma dict_of_pairs_update (l : list (value * value)) :
  Forall (fun k => hashable k = true) (map fst l) ->
  forall acc, dict_of_pairs acc l = Ok (dict_update acc l).
Proof.
  induction l as [|[k v] r IH]; simpl; intros Hh acc; [reflexivity|].
  inversion Hh as [|? ? Hk Hr]; subst.
  unfold dict_setitem. rewrite Hk. simpl. apply (IH Hr).
Qed.

Lemma dict_update_wf (l : list (value * value)) :
  dict_wf l -> dict_update [] l = l.
Proof.
  intros Hwf. pose proof (dict_of_pairs_wf l Hwf) as H1.
  rewrite (dict_of_pairs_update l (proj1 Hwf)) in H1. congruence.
Qed.

Lemma map_values_loop_spec (cbf : callback3) (F : value -> value -> value)
  (obj : value) (h : heap) :
  (forall v k s, exists s1, cbf v k obj h s = Ok (F k v, s1)) ->
  forall ps,
    Forall (fun k => hashable k = true) (map fst ps) ->
    forall ret s,
    exists s',
      map_values_loop
        (map (fun '(k, v) => fun s =>
                do (r, s') <- cbf v k obj h s; Ok ((r, v, k, obj), s')) ps)
        ret s
      = Ok (dict_update ret (map (fun e => (fst e, F (fst e) (snd e))) ps), s').
Proof.
  intros Hcb. induction ps as [|[k v] r IH]; intros Hh ret s.
  - exists s. reflexivity.
  - simpl in Hh. inversion Hh as [|? ? Hk Hr]; subst.
    cbn [map map_values_loop fst snd].
    destruct (Hcb v k s) as [s1 ->]. rewrite !bind_ok. cbn [item_key item_result].
    unfold dict_setitem. rewrite Hk, bind_ok.
    destruct (IH Hr (dict_set ret k (F k v)) s1) as [s' ->].
    exists s'. reflexivity.
Qed.

(** X8: [map_values(obj, callback)] returns a new dict with the keys of
    [obj], in the same order, also when [obj] is a list (its indices become
    the keys).  Without a callback the values are those of [obj]; with a
    callable whose result depends on its arguments only, each value is the
    callable's result on [(value, key, obj)], cut down to the parameters it
    takes.  [obj] is left as it was. *)
Theorem map_values_same_keys (obj : value) (f : nat)
  (ps : list (value * value)) (h : heap) (s : State) :
  iterate h obj = Ok ps ->
  (forall a d, obj = VRef a -> h !! a = Some (ODict d) -> dict_wf d) ->
  map_values obj VNone h s = Ok (VRef (length h), h ++ [ODict ps], s)
  /\ ((forall args s1 s2, fst (call f args h s1) = fst (call f args h s2)) ->
      exists s',
        map_values obj (VFunc f) h s
        = Ok (VRef (length h),
              h ++ [ODict (map (fun e =>
                                  (fst e,
                                   fst (call f (take (argcount f)
                                                  [snd e; fst e; obj]) h s)))
                               ps)],
              s')).
Proof.
  intros Hit Hobj.
  assert (Hwf : dict_wf ps).
  { destruct obj as [| | | | | |a]; try discriminate.
    apply (iterate_wf h a); [|exact Hit]. intros d. apply Hobj. reflexivity. }
  assert (Hkeys : forall F : value -> value -> value,
             dict_wf (map (fun e => (fst e, F (fst e) (snd e))) ps)).
  { intros F. unfold dict_wf. rewrite map_map. simpl.
    change (map (fun x : value * value => fst x) ps) with (map fst ps).
    exact Hwf. }
  split.
  - unfold map_values, iter_callback. rewrite Hit. simpl make_callback.
    rewrite !bind_ok.
    destruct (map_values_loop_spec (fun v _ _ _ s => Ok (v, s))
                (fun _ v => v) obj h
                (fun v k s => ex_intro _ s eq_refl) ps (proj1 Hwf) [] s)
      as [s' Hs].
    assert (Hsame : forall (l : list (value * value)) ret s0 s1 d,
               map_values_loop
                 (map (fun '(k, v) => fun s =>
                         do (r, s') <- (fun v _ _ _ s => Ok (v, s)) v k obj h s;
                         Ok ((r, v, k, obj), s')) l) ret s0 = Ok (d, s1) ->
               s1 = s0).
    { clear. induction l as [|[k v] r IH]; intros ret s0 s1 d H.
      - injection H as _ <-. reflexivity.
      - cbn [map map_values_loop] in H. rewrite !bind_ok in H.
        destruct (dict_setitem ret _ _) as [ret'|]; [|discriminate].
        rewrite bind_ok in H. apply (IH _ _ _ _ H). }
    pose proof (Hsame _ _ _ _ _ Hs) as ->.
    rewrite Hs, bind_ok.
    rewrite (dict_update_wf _ (Hkeys (fun _ v => v))).
    replace (map (fun e : value * value => (fst e, snd e)) ps) with ps.
    + reflexivity.
    + clear. induction ps as [|[k v] r IH]; simpl; [|rewrite <- IH]; reflexivity.
  - intros Hdet.
    set (F := fun k v => fst (call f (take (argcount f) [v; k; obj]) h s)).
    destruct (map_values_loop_spec
                (fun v k c h s =>
                   Ok (call f (take (argcount f) [v; k; c]) h s))
                F obj h) with (ps := ps) (ret := @nil (value * value)) (s := s)
      as [s' Hs].
    + intros v k s0. exists (snd (call f (take (argcount f) [v; k; obj]) h s0)).
      unfold F. rewrite (Hdet _ s s0).
      destruct (call f (take (argcount f) [v; k; obj]) h s0). reflexivity.
    + exact (proj1 Hwf).
    + exists s'. unfold map_values, iter_callback. rewrite Hit.
      simpl make_callback. rewrite !bind_ok, Hs, bind_ok.
      rewrite (dict_update_wf _ (Hkeys F)). reflexivity.
Qed.

(** ** update on scalar values *)

Lemma same_shape_scalar (h : heap) (obj_value x : value) :
  is_scalar x = true -> same_shape h obj_value x = false.
Proof.
  intros Hx. unfold same_shape. destruct x; try discriminate; simpl;
    rewrite ?andb_false_r; reflexivity.
Qed.

Lemma list_store_at (pre post : list value) (x : value) :
  list_store (pre ++ post) (length pre) x = (pre ++ [x]) ++ drop 1 post.
Proof.
  unfold list_store. rewrite length_app.
  destruct post as [|p ps]; simpl.
  - rewrite Nat.add_0_r, Nat.ltb_irrefl, Nat.sub_diag. simpl.
    rewrite !app_nil_r. reflexivity.
  - replace (length pre <? length pre + S (length ps))%nat with true
      by (symmetry; apply Nat.ltb_lt; lia).
    rewrite <- app_assoc. simpl. rewrite drop_0.
    clear. induction pre as [|q pre IH]; simpl; [reflexivity|].
    rewrite IH. reflexivity.
Qed.

Lemma update_loop_list_scalars
  (rec : value -> value -> heap -> State -> result (value * heap * State))
  (a : nat) (xs : list value) :
  Forall (fun x => is_scalar x = true) xs ->
  forall (pre post : list value) (h : heap) (s : State),
    h !! a = Some (OList (pre ++ post)) ->
    update_loop rec (VRef a) VNone (enumerate (length pre) xs) h s =
    Ok (<[a := OList (pre ++ xs ++ drop (length xs) post)]> h, s).
Proof.
  induction 1 as [|x xs Hx _ IH]; intros pre post h s Ha.
  - simpl. rewrite drop_0, list_insert_id by exact Ha. reflexivity.
  - cbn [enumerate]. rewrite update_loop_cons.
    rewrite update_entry_overwrite;
      [|reflexivity|apply same_shape_scalar; exact Hx].
    unfold set_item. rewrite Ha. cbn [index_of].
    assert (Hneg : (Z.of_nat (length pre) <? 0) = false)
      by (apply Z.ltb_ge; lia).
    unfold resolve_index. rewrite Hneg. cbv iota. rewrite Hneg.
    cbn [bind]. rewrite Nat2Z.id, list_store_at.
    replace (S (length pre)) with (length (pre ++ [x]))
      by (rewrite length_app; simpl; lia).
    rewrite (IH (pre ++ [x]) (drop 1 post)).
    + rewrite list_insert_insert_eq, drop_drop, <- app_assoc.
      reflexivity.
    + apply list_lookup_insert_eq. eapply lookup_lt_Some. exact Ha.
Qed.

(** X9: merging a list of scalars into a list, without a callback, works by
    position: [update(obj, source)] overwrites [obj] in place with the
    elements of [source] from index 0 on, keeps the elements of [obj] beyond
    the length of [source], and grows [obj] when [source] is longer. *)
Theorem update_list_by_position (d a b : nat) (l xs : list value) (h : heap)
  (s : State) :
  h !! a = Some (OList l) ->
  h !! b = Some (OList xs) ->
  Forall (fun x => is_scalar x = true) xs ->
  update (S d) (VRef a) (VRef b) VNone h s
  = Ok (VRef a, <[a := OList (xs ++ drop (length xs) l)]> h, s).
Proof.
  intros Ha Hb Hxs. rewrite update_unfold. unfold iterate. rewrite Hb, bind_ok.
  change 0%nat with (length (@nil value)).
  rewrite (update_loop_list_scalars _ a xs Hxs [] l h s Ha). reflexivity.
Qed.

Lemma update_loop_dict_scalars
  (rec : value -> value -> heap -> State -> result (value * heap * State))
  (a : nat) (e : list (value * value)) :
  Forall (fun k => hashable k = true) (map fst e) ->
  Forall (fun x => is_scalar x = true) (map snd e) ->
  forall (d : list (value * value)) (h : heap) (s : State),
    h !! a = Some (ODict d) ->
    update_loop rec (VRef a) VNone e h s =
    Ok (<[a := ODict (dict_update d e)]> h, s).
Proof.
  induction e as [|[k x] r IH]; intros Hh Hs d h s Ha.
  - simpl. rewrite list_insert_id by exact Ha. reflexivity.
  - simpl in Hh, Hs. inversion Hh as [|? ? Hk Hr]; subst.
    inversion Hs as [|? ? Hx Hxs]; subst.
    rewrite update_loop_cons.
    rewrite update_entry_overwrite;
      [|reflexivity|apply same_shape_scalar; exact Hx].
    unfold set_item. rewrite Ha. unfold dict_setitem. rewrite Hk.
    cbn [bind]. rewrite (IH Hr Hxs (dict_set d k x)).
    + rewrite list_insert_insert_eq. reflexivity.
    + apply list_lookup_insert_eq. eapply lookup_lt_Some. exact Ha.
Qed.

Lemma update_dict_scalars (n a b : nat) (d e : list (value * value))
  (h : heap) (s : State) :
  h !! a = Some (ODict d) ->
  h !! b = Some (ODict e) ->
  dict_wf e ->
  Forall (fun x => is_scalar x = true) (map snd e) ->
  update (S n) (VRef a) (VRef b) VNone h s
  = Ok (VRef a, <[a := ODict (dict_update d e)]> h, s).
Proof.
  intros Ha Hb [Hh _] Hs. rewrite update_unfold. unfold iterate.
  rewrite Hb, bind_ok.
  rewrite (update_loop_dict_scalars _ a e Hh Hs d h s Ha). reflexivity.
Qed.

(** X10: on dicts, with a source whose values are all scalars and no
    callback, [update], [merge] and [assign] do the same thing: every entry
    of the source is stored into [obj], which ends up with the source's
    value under each key of the source and its own value elsewhere. *)
Theorem update_flat_is_assign (n a b : nat) (d e : list (value * value))
  (h : heap) (s : State) :
  h !! a = Some (ODict d) ->
  h !! b = Some (ODict e) ->
  dict_wf e ->
  Forall (fun x => is_scalar x = true) (map snd e) ->
  let h' := <[a := ODict (dict_update d e)]> h in
  update (S n) (VRef a) (VRef b) VNone h s = Ok (VRef a, h', s)
  /\ assign (VRef a) [VRef b] [] h s = Ok (VRef a, h', s)
  /\ ((1 <= recursion_limit)%nat ->
      merge (VRef a) [VRef b] [] h s = Ok (VRef a, h', s))
  /\ forall k,
      dict_get (dict_update d e) k =
      match dict_get e k with Some v => Some v | None => dict_get d k end.
Proof.
  intros Ha Hb Hwf Hs h'. subst h'.
  split; [apply update_dict_scalars; assumption|]. split; [|split].
  - unfold assign. simpl. unfold iteritems. rewrite Hb, bind_ok.
    rewrite (assign_items_dict a e (proj1 Hwf) d h s Ha). reflexivity.
  - intros Hlim. destruct recursion_limit as [|m] eqn:Hrl; [lia|].
    unfold merge. simpl kargs_get. cbn [merge_sources]. rewrite Hrl.
    rewrite (update_dict_scalars m a b d e h s Ha Hb Hwf Hs). reflexivity.
  - intros k. apply dict_update_get. exact Hwf.
Qed.

Lemma set_item_keeps (h h' : heap) (obj key v : value) :
  set_item h obj key v = Ok h' ->
  length h' = length h
  /\ forall c, isinstance_list h' (VRef c) = isinstance_list h (VRef c)
               /\ isinstance_dict h' (VRef c) = isinstance_dict h (VRef c).
Proof.
  unfold set_item. destruct obj as [| | | | | |a]; try discriminate.
  destruct (h !! a) as [[l|d]|] eqn:Ha; try discriminate.
  - destruct (index_of key) as [i|]; [|discriminate].
    destruct (_ <? 0); [discriminate|]. intros [= <-].
    split; [apply length_insert|]. intros c. simpl.
    destruct (Nat.eq_dec a c) as [->|Hne].
    + rewrite list_lookup_insert_eq by (eapply lookup_lt_Some; exact Ha).
      rewrite Ha. auto.
    + rewrite list_lookup_insert_ne by exact Hne. auto.
  - destruct (dict_setitem d key v) as [d'|]; [|discriminate].
    simpl. intros [= <-].
    split; [apply length_insert|]. intros c.
    destruct (Nat.eq_dec a c) as [->|Hne].
    + rewrite list_lookup_insert_eq by (eapply lookup_lt_Some; exact Ha).
      rewrite Ha. auto.
    + rewrite list_lookup_insert_ne by exact Hne. auto.
Qed.

(** X11: [update] works in place.  Whatever its arguments, when it returns
    it returns [obj] itself, it has created no object, and every object is
    still of the type it had (a list is still a list, a dict a dict): what
    is merged is merged into the containers of [obj], and what is
    overwritten is shared with the source rather than copied. *)
Theorem update_in_place (depth : nat) :
  forall (obj source callback r : value) (h h' : heap) (s s' : State),
    update depth obj source callback h s = Ok (r, h', s') ->
    r = obj
    /\ length h' = length h
    /\ forall c, isinstance_list h' (VRef c) = isinstance_list h (VRef c)
                 /\ isinstance_dict h' (VRef c) = isinstance_dict h (VRef c).
Proof.
  induction depth as [|d IHd]; intros obj source callback r h h' s s' H;
    [discriminate|].
  rewrite update_unfold in H.
  destruct (iterate h source) as [ps|]; [|discriminate].
  rewrite bind_ok in H.
  destruct (update_loop _ obj callback ps h s) as [[h1 s1]|] eqn:Hloop;
    [|discriminate].
  rewrite bind_ok in H. injection H as <- <- <-.
  split; [reflexivity|].
  revert h s h1 s1 Hloop. induction ps as [|[k x] ps IH]; intros h s h1 s1 H.
  - injection H as <- <-. auto.
  - rewrite update_loop_cons in H.
    destruct (update_entry _ obj callback k x h s) as [[h2 s2]|] eqn:He;
      [|discriminate].
    rewrite bind_ok in H. destruct (IH _ _ _ _ H) as [L2 T2].
    assert (Hstep : length h2 = length h
                    /\ forall c,
                        isinstance_list h2 (VRef c) = isinstance_list h (VRef c)
                        /\ isinstance_dict h2 (VRef c)
                           = isinstance_dict h (VRef c)).
    { unfold update_entry in He.
      destruct (if _ && negb (truthy h callback) then _ else _)
        as [[[res h3] s3]|] eqn:Hres; [|discriminate].
      rewrite bind_ok in He.
      destruct (set_item h3 obj k res) as [h4|] eqn:Hset; [|discriminate].
      rewrite bind_ok in He. injection He as <- <-.
      destruct (set_item_keeps _ _ _ _ _ Hset) as [L4 T4].
      assert (H3 : length h3 = length h
                   /\ forall c,
                       isinstance_list h3 (VRef c) = isinstance_list h (VRef c)
                       /\ isinstance_dict h3 (VRef c)
                          = isinstance_dict h (VRef c)).
      { destruct (_ && negb (truthy h callback)).
        - destruct (IHd _ _ _ _ _ _ _ _ Hres) as (_ & L & T). auto.
        - destruct (truthy h callback).
          + destruct (call_value callback _ h s) as [[r0 s0]|];
              [|discriminate].
            rewrite bind_ok in Hres. injection Hres as _ <- _. auto.
          + injection Hres as _ <- _. auto. }
      destruct H3 as [L3 T3]. split; [congruence|].
      intros c. destruct (T4 c) as [A1 A2], (T3 c) as [B1 B2].
      split; congruence. }
    destruct Hstep as [L1 T1]. split; [congruence|].
    intros c. destruct (T2 c) as [A1 A2], (T1 c) as [B1 B2].
    split; congruence.
Qed.

(** ** merge shares what it does not merge *)

Lemma dict_set_new (d : list (value * value)) (k v : value) :
  dict_get d k = None -> dict_set d k v = d ++ [(k, v)].
Proof. intros H. apply dict_set_fresh. apply dict_get_None. exact H. Qed.

Lemma dict_set_again (d : list (value * value)) (k v : value) :
  dict_get d k = None -> hashable k = true ->
  dict_set (d ++ [(k, v)]) k v = d ++ [(k, v)].
Proof.
  intros H Hk. apply dict_get_None in H.
  induction H as [|[k' v'] r Hk' _ IH]; simpl in *.
  - rewrite same_key_refl by exact Hk. reflexivity.
  - rewrite Hk', IH. reflexivity.
Qed.

(** X12: [merge] stores the containers of a source into [obj] as they are,
    so a later source is merged into them.  Let [obj], the two sources and
    the dicts [t1], [t2] be five different objects, [obj] a dict without
    the key [k], and [t2] non-empty with scalar values.  After
    [merge(obj, {k: t1}, {k: t2})], [obj] holds the first source's own dict
    [t1] under [k], and that dict has received the entries of [t2]: the
    first source has thereby changed.  The five objects being different,
    no dict is written to while it is walked. *)
Theorem merge_changes_earlier_source (a b1 b2 t1 t2 : nat) (k : value)
  (d e1 e2 : list (value * value)) (h : heap) (s : State) :
  (2 <= recursion_limit)%nat ->
  h !! a = Some (ODict d) -> dict_get d k = None -> hashable k = true ->
  h !! b1 = Some (ODict [(k, VRef t1)]) -> h !! t1 = Some (ODict e1) ->
  h !! b2 = Some (ODict [(k, VRef t2)]) -> h !! t2 = Some (ODict e2) ->
  e2 <> [] -> dict_wf e2 ->
  Forall (fun x => is_scalar x = true) (map snd e2) ->
  List.NoDup [a; b1; b2; t1; t2] ->
  exists h',
    merge (VRef a) [VRef b1; VRef b2] [] h s = Ok (VRef a, h', s)
    /\ h' !! a = Some (ODict (d ++ [(k, VRef t1)]))
    /\ h' !! t1 = Some (ODict (dict_update e1 e2))
    /\ forall x, dict_get (dict_update e1 e2) x =
                 match dict_get e2 x with
                 | Some v => Some v
                 | None => dict_get e1 x
                 end.
Proof.
  intros Hlim Ha Hnone Hk Hb1 Ht1 Hb2 Ht2 Hne Hwf Hsc Hnd.
  assert (Hat1 : a <> t1).
  { intros ->. inversion Hnd as [|? ? Hnin _]. apply Hnin. simpl. auto. }
  assert (Hat2 : a <> t2).
  { intros ->. inversion Hnd as [|? ? Hnin _]. apply Hnin. simpl. auto. }
  assert (Hab2 : a <> b2).
  { intros ->. rewrite Ha in Hb2. injection Hb2 as ->.
    simpl in Hnone. rewrite same_key_refl in Hnone by exact Hk. discriminate. }
  destruct recursion_limit as [|[|n]] eqn:Hrl; [lia|lia|].
  set (h1 := <[a := ODict (d ++ [(k, VRef t1)])]> h).
  set (h2 := <[t1 := ODict (dict_update e1 e2)]> h1).
  assert (Ha1 : h1 !! a = Some (ODict (d ++ [(k, VRef t1)]))).
  { apply list_lookup_insert_eq. eapply lookup_lt_Some. exact Ha. }
  assert (Hother : forall c, c <> a -> h1 !! c = h !! c).
  { intros c Hc. apply list_lookup_insert_ne. congruence. }
  assert (Ha2 : h2 !! a = Some (ODict (d ++ [(k, VRef t1)]))).
  { unfold h2. rewrite list_lookup_insert_ne by congruence. exact Ha1. }
  exists h2. split; [|split; [exact Ha2|split]].
  - unfold merge. simpl kargs_get. cbn [merge_sources]. rewrite Hrl.
    (* the first source: its dict is stored as it is *)
    rewrite update_unfold. unfold iterate at 1. rewrite Hb1, bind_ok.
    rewrite update_loop_cons, update_entry_overwrite; [|reflexivity|].
    2:{ unfold get_item. rewrite Ha, Hnone.
        unfold same_shape, isinstance_list, isinstance_dict. rewrite Ht1.
        simpl. apply andb_false_r. }
    unfold set_item at 1. rewrite Ha. unfold dict_setitem. rewrite Hk.
    cbn [bind update_loop]. rewrite dict_set_new by exact Hnone. fold h1.
    (* the second source: merged into that dict *)
    assert (Hg : get_item h1 (VRef a) k VNone = VRef t1).
    { unfold get_item. rewrite Ha1.
      rewrite <- (dict_set_new d k (VRef t1) Hnone).
      rewrite dict_get_set_same by exact Hk. reflexivity. }
    rewrite update_unfold. unfold iterate at 1.
    rewrite Hother by congruence. rewrite Hb2, bind_ok.
    rewrite update_loop_cons, update_entry_recurse; [|reflexivity|].
    2:{ rewrite Hg. unfold same_shape, truthy, isinstance_list, isinstance_dict.
        rewrite !Hother by congruence. rewrite Ht2, Ht1.
        destruct e2; [congruence|reflexivity]. }
    rewrite Hg.
    rewrite (update_dict_scalars n t1 t2 e1 e2 h1 s); try assumption;
      try (rewrite Hother by congruence; assumption).
    fold h2. rewrite bind_ok.
    unfold set_item. rewrite Ha2. unfold dict_setitem. rewrite Hk.
    cbn [bind update_loop].
    rewrite dict_set_again by assumption.
    rewrite (list_insert_id h2 a) by exact Ha2. reflexivity.
  - unfold h2. apply list_lookup_insert_eq.
    unfold h1. rewrite length_insert. eapply lookup_lt_Some. exact Ht1.
  - intros x. apply dict_update_get. exact Hwf.
Qed.

(** ** clone with a callback *)

Lemma clone_items_map (f : nat) (h1 : heap) (s0 : State) :
  (forall args s1 s2, fst (call f args h1 s1) = fst (call f args h1 s2)) ->
  forall ps s,
  exists s',
    clone_items (VFunc f) ps h1 s =
    Ok (map (fun e => (fst e, fst (call f [snd e] h1 s0))) ps, s').
Proof.
  intros Hdet. induction ps as [|[k v] r IH]; intros s.
  - exists s. reflexivity.
  - cbn [clone_items is_None call_value map fst snd]. rewrite bind_ok.
    rewrite (Hdet [v] s0 s). destruct (call f [v] h1 s) as [w s1].
    destruct (IH s1) as [s' ->]. exists s'. reflexivity.
Qed.

Lemma enumerate_map_snd (g : value -> value) (l : list value) (n : nat) :
  map snd (map (fun e => (fst e, g (snd e))) (enumerate n l)) = map g l.
Proof.
  revert n. induction l as [|x r IH]; intros n; simpl; [|rewrite IH];
    reflexivity.
Qed.

(** X13: with a callable [f] whose result depends on its argument only,
    [clone(x, callback=f)] returns a new container of the type of [x] (list
    or dict) with the same length and the same keys, holding [f(v)] where
    [x] holds [v]; [x] is left as it was. *)
Theorem clone_applies_callback (a f : nat) (o : object) (h : heap)
  (s : State) :
  h !! a = Some o ->
  match o with ODict d => dict_wf d | OList _ => True end ->
  (forall args s1 s2,
      fst (call f args (h ++ [o]) s1) = fst (call f args (h ++ [o]) s2)) ->
  exists s',
    clone (VRef a) false (VFunc f) h s
    = Ok (VRef (S (length h)),
          (h ++ [o])
          ++ [map_object (fun v => fst (call f [v] (h ++ [o]) s)) o],
          s').
Proof.
  intros Ha Hwf Hdet.
  assert (H1 : (h ++ [o]) !! length h = Some o).
  { rewrite lookup_app_r by lia. rewrite Nat.sub_diag. reflexivity. }
  assert (Hlen : length (h ++ [o]) = S (length h))
    by (rewrite length_app; simpl; lia).
  unfold clone. rewrite bind_ok. unfold copy_copy, alloc. rewrite Ha.
  unfold iterate, isinstance_list. rewrite H1.
  destruct o as [l|d]; rewrite bind_ok.
  - destruct (clone_items_map f (h ++ [OList l]) s Hdet (enumerate 0 l) s)
      as [s' ->].
    exists s'. rewrite bind_ok, Hlen.
    rewrite (enumerate_map_snd
               (fun v => fst (call f [v] (h ++ [OList l]) s))).
    reflexivity.
  - destruct (clone_items_map f (h ++ [ODict d]) s Hdet d s) as [s' ->].
    exists s'. rewrite bind_ok.
    rewrite dict_of_pairs_wf.
    + rewrite bind_ok, Hlen. reflexivity.
    + unfold dict_wf. rewrite map_map. simpl.
      change (map (fun x : value * value => fst x) d) with (map fst d).
      exact Hwf.
Qed.

(** ** invert needs hashable values *)

Lemma dict_of_pairs_raise (l : list (value * value)) :
  Exists (fun k => hashable k = false) (map fst l) ->
  forall acc, dict_of_pairs acc l = Raise TypeError.
Proof.
  induction l as [|[k v] r IH]; simpl; intros H acc.
  - inversion H.
  - unfold dict_setitem. destruct (hashable k) eqn:Hk; [|reflexivity].
    rewrite bind_ok. apply IH. inversion H as [? ? H0|? ? H0]; subst;
      [congruence|exact H0].
Qed.

Lemma dict_set_keys_Forall (P : value -> Prop) (d : list (value * value))
  (k v : value) :
  Forall P (map fst d) -> P k -> Forall P (map fst (dict_set d k v)).
Proof.
  intros Hd Hk. induction d as [|[k' v'] r IH]; simpl in *.
  - constructor; [exact Hk|constructor].
  - inversion Hd as [|? ? H1 H2]; subst.
    destruct (same_key k' k); simpl; constructor; auto.
Qed.

Lemma dict_set_wf (d : list (value * value)) (k v : value) :
  dict_wf d -> hashable k = true -> dict_wf (dict_set d k v).
Proof.
  unfold dict_wf. intros [Hh Hd] Hk. split.
  - apply dict_set_keys_Forall; assumption.
  - induction d as [|[k' v'] r IH]; simpl in *.
    + split; [constructor|exact Logic.I].
    + destruct Hd as [Hfr Hd]. inversion Hh as [|? ? H1 H2]; subst.
      destruct (same_key k' k) eqn:E; simpl.
      * split; assumption.
      * split; [apply dict_set_keys_Forall; assumption|auto].
Qed.

Lemma dict_update_keeps_wf (l : list (value * value)) :
  Forall (fun k => hashable k = true) (map fst l) ->
  forall acc, dict_wf acc -> dict_wf (dict_update acc l).
Proof.
  induction l as [|[k v] r IH]; intros H acc Hacc; [exact Hacc|].
  simpl in H. inversion H as [|? ? H1 H2]; subst. rewrite dict_update_cons.
  apply IH; [exact H2|]. apply dict_set_wf; assumption.
Qed.

Lemma dict_get_set_cases (d : list (value * value)) (k0 k v : value) :
  hashable k0 = true ->
  dict_get (dict_set d k0 v) k =
  if same_key k0 k then Some v else dict_get d k.
Proof.
  intros H0. destruct (same_key k0 k) eqn:E.
  - apply dict_get_set_eq. exact E.
  - apply dict_get_set_other. exact E.
Qed.

Lemma dict_update_get_some (l : list (value * value)) :
  Forall (fun k => hashable k = true) (map fst l) ->
  forall acc k w,
    dict_get (dict_update acc l) k = Some w ->
    dict_get acc k = Some w
    \/ exists e, In e l /\ same_key (fst e) k = true /\ snd e = w.
Proof.
  induction l as [|[k0 v0] r IH]; intros H acc k w Hg; [left; exact Hg|].
  simpl in H. inversion H as [|? ? H1 H2]; subst.
  rewrite dict_update_cons in Hg.
  destruct (IH H2 _ _ _ Hg) as [Hs|(e & He & Hk & Hw)].
  - rewrite dict_get_set_cases in Hs by exact H1.
    destruct (same_key k0 k) eqn:E; [|left; exact Hs].
    right. exists (k0, v0). split; [left; reflexivity|]. split; [exact E|].
    simpl. congruence.
  - right. exists e. split; [right; exact He|]. split; assumption.
Qed.

Lemma dict_update_mono (l : list (value * value)) :
  Forall (fun k => hashable k = true) (map fst l) ->
  forall acc k, dict_get acc k <> None -> dict_get (dict_update acc l) k <> None.
Proof.
  induction l as [|[k0 v0] r IH]; intros H acc k Hg; [exact Hg|].
  simpl in H. inversion H as [|? ? H1 H2]; subst. rewrite dict_update_cons.
  apply IH; [exact H2|]. rewrite dict_get_set_cases by exact H1.
  destruct (same_key k0 k); [discriminate|exact Hg].
Qed.

Lemma dict_update_get_in (l : list (value * value)) :
  Forall (fun k => hashable k = true) (map fst l) ->
  forall acc e, In e l -> dict_get (dict_update acc l) (fst e) <> None.
Proof.
  induction l as [|[k0 v0] r IH]; intros H acc e He; [contradiction|].
  simpl in H. inversion H as [|? ? H1 H2]; subst. rewrite dict_update_cons.
  destruct He as [<-|He]; [|apply IH; assumption].
  apply dict_update_mono; [exact H2|]. simpl.
  rewrite dict_get_set_same by exact H1. discriminate.
Qed.

(** X14: [invert] works on lists as on dicts, and needs hashable values:
    when a value of [obj] is unhashable (a list or a dict) it raises
    [TypeError] and returns nothing; when all are hashable it returns a new
    dict in which every value of [obj] is a key, and every key is mapped to
    a key of [obj] under which that value (up to key equality) is stored. *)
Theorem invert_needs_hashable_values (obj : value)
  (ps : list (value * value)) (h : heap) :
  iterate h obj = Ok ps ->
  (Exists (fun v => hashable v = false) (map snd ps) ->
   invert obj h = Raise TypeError)
  /\ (Forall (fun v => hashable v = true) (map snd ps) ->
      exists d,
        invert obj h = Ok (VRef (length h), h ++ [ODict d])
        /\ dict_wf d
        /\ (forall k v, In (k, v) ps -> dict_get d v <> None)
        /\ (forall v k, dict_get d v = Some k ->
                        exists v', In (k, v') ps /\ same_key v' v = true)).
Proof.
  intros Hit. unfold invert. rewrite Hit, bind_ok. split.
  - intros Hex. rewrite dict_of_pairs_raise; [reflexivity|].
    rewrite swap_map_fst. exact Hex.
  - intros Hall.
    assert (Hall' : Forall (fun k => hashable k = true)
                      (map fst (map (fun '(key, v) => (v, key)) ps)))
      by (rewrite swap_map_fst; exact Hall).
    exists (dict_update [] (map (fun '(key, v) => (v, key)) ps)).
    rewrite dict_of_pairs_update by exact Hall'.
    split; [reflexivity|]. split; [|split].
    + apply dict_update_keeps_wf; [exact Hall'|].
      split; [constructor|exact Logic.I].
    + intros k v Hin.
      apply (dict_update_get_in _ Hall' [] (v, k)).
      apply in_map_iff. exists (k, v). split; [reflexivity|exact Hin].
    + intros v k Hg.
      destruct (dict_update_get_some _ Hall' _ _ _ Hg)
        as [Hn|(e & He & Hk & Hw)]; [discriminate|].
      apply in_map_iff in He. destruct He as ([k' v'] & <- & Hin).
      simpl in Hk, Hw. subst k'. exists v'. split; assumption.
Qed.

(** ** pick and omit by property name *)

Lemma iterate_ok_wf (obj : value) (ps : list (value * value)) (h : heap) :
  iterate h obj = Ok ps ->
  (forall a d, obj = VRef a -> h !! a = Some (ODict d) -> dict_wf d) ->
  dict_wf ps.
Proof.
  intros Hit Hobj. destruct obj as [| | | | | |a]; try discriminate.
  apply (iterate_wf h a); [|exact Hit]. intros d. apply Hobj. reflexivity.
Qed.

Lemma select_pairs_names (keep : bool -> bool) (names : list value)
  (obj : value) (h : heap) :
  forall ps s,
    select_pairs keep
      (fun _ key _ _ s => Ok (VBool (existsb (same_key key) names), s))
      obj ps h s
    = Ok (List.filter (fun e => keep (existsb (same_key (fst e)) names)) ps,
          s).
Proof.
  induction ps as [|[k v] r IH]; intros s; [reflexivity|].
  cbn [select_pairs List.filter fst]. rewrite bind_ok, IH, bind_ok.
  reflexivity.
Qed.

Lemma pick_omit_names (keep : bool -> bool) (obj callback : value)
  (properties names : list value) (ps : list (value * value)) (h : heap)
  (s : State) :
  iterate h obj = Ok ps ->
  dict_wf ps ->
  callable callback = false ->
  flatten recursion_limit h
    ((if is_None callback then [] else [callback]) ++ properties)
  = Ok names ->
  (do test <- property_test callback properties h;
   do pairs <- iterate h obj;
   do (kept, s') <- select_pairs keep test obj pairs h s;
   do d <- dict_of_pairs [] kept;
   let (r, h') := alloc h (ODict d) in Ok (r, h', s'))
  = Ok (VRef (length h),
        h ++ [ODict (List.filter
                       (fun e => keep (existsb (same_key (fst e)) names)) ps)],
        s).
Proof.
  intros Hit Hwf Hc Hfl. unfold property_test. rewrite Hc. cbv zeta.
  rewrite Hfl, !bind_ok, Hit, bind_ok, select_pairs_names, bind_ok.
  rewrite dict_of_pairs_wf by (apply dict_wf_filter; exact Hwf).
  reflexivity.
Qed.

(** X15: when [callback] is not callable, [pick] and [omit] select by
    name: the names are [callback] (unless it is [None]) and [properties],
    with lists among them flattened.  [pick] returns a new dict of the
    entries of [obj] whose key is among the names, [omit] a new dict of the
    other entries; both keep the order of [obj], call nothing and leave
    [obj] as it was. *)
Theorem pick_omit_by_name (obj callback : value)
  (properties names : list value) (ps : list (value * value)) (h : heap)
  (s : State) :
  iterate h obj = Ok ps ->
  (forall a d, obj = VRef a -> h !! a = Some (ODict d) -> dict_wf d) ->
  callable callback = false ->
  flatten recursion_limit h
    ((if is_None callback then [] else [callback]) ++ properties)
  = Ok names ->
  let named e := existsb (same_key (fst e)) names in
  pick obj callback properties h s
  = Ok (VRef (length h), h ++ [ODict (List.filter named ps)], s)
  /\ omit obj callback properties h s
     = Ok (VRef (length h),
           h ++ [ODict (List.filter (fun e => negb (named e)) ps)], s).
Proof.
  intros Hit Hobj Hc Hfl named.
  pose proof (iterate_ok_wf obj ps h Hit Hobj) as Hwf.
  split.
  - unfold pick.
    apply (pick_omit_names (fun b => b) obj callback properties names ps h s);
      assumption.
  - unfold omit.
    apply (pick_omit_names negb obj callback properties names ps h s);
      assumption.
Qed.

(** X16: without a callback and without property names, [pick(obj)] is a
    new empty dict and [omit(obj)] a new dict with all the entries of [obj]
    in order; for a list [obj] this is the dict from each index to its
    element, not a list. *)
Theorem omit_nothing_copies_all (obj : value) (ps : list (value * value))
  (h : heap) (s : State) :
  (1 <= recursion_limit)%nat ->
  iterate h obj = Ok ps ->
  (forall a d, obj = VRef a -> h !! a = Some (ODict d) -> dict_wf d) ->
  pick obj VNone [] h s = Ok (VRef (length h), h ++ [ODict []], s)
  /\ omit obj VNone [] h s = Ok (VRef (length h), h ++ [ODict ps], s)
  /\ forall a l, obj = VRef a -> h !! a = Some (OList l) ->
                 length ps = length l
                 /\ forall i x, l !! i = Some x ->
                                dict_get ps (VInt (Z.of_nat i)) = Some x.
Proof.
  intros Hlim Hit Hobj.
  pose proof (iterate_ok_wf obj ps h Hit Hobj) as Hwf.
  assert (Hfl : flatten recursion_limit h
                  ((if is_None VNone then [] else [VNone]) ++ []) = Ok []).
  { destruct recursion_limit; [lia|reflexivity]. }
  split; [|split].
  - unfold pick.
    rewrite (pick_omit_names (fun b => b) obj VNone [] [] ps h s Hit Hwf
               eq_refl Hfl).
    replace (List.filter (fun e => existsb (same_key (fst e)) []) ps)
      with (@nil (value * value)); [reflexivity|].
    clear. induction ps as [|e r IH]; [reflexivity|exact IH].
  - unfold omit.
    rewrite (pick_omit_names negb obj VNone [] [] ps h s Hit Hwf eq_refl Hfl).
    replace (List.filter (fun e => negb (existsb (same_key (fst e)) [])) ps)
      with ps; [reflexivity|].
    clear. induction ps as [|e r IH]; [reflexivity|].
    simpl in *. rewrite <- IH. reflexivity.
  - intros a l -> Ha. unfold iterate in Hit. rewrite Ha in Hit.
    injection Hit as <-. clear.
    assert (G : forall n,
               length (enumerate n l) = length l
               /\ forall i x, l !! i = Some x ->
                    dict_get (enumerate n l) (VInt (Z.of_nat (n + i)))
                    = Some x).
    { induction l as [|y r IH]; intros n; simpl.
      - split; [reflexivity|]. intros i x Hx. destruct i; discriminate.
      - destruct (IH (S n)) as [IH1 IH2]. split; [rewrite IH1; reflexivity|].
        intros [|i] x Hx; simpl in Hx.
        + injection Hx as ->. rewrite Nat.add_0_r.
          rewrite same_key_refl by reflexivity. reflexivity.
        + destruct (same_key (VInt (Z.of_nat n)) (VInt (Z.of_nat (n + S i))))
            eqn:E.
          * apply same_key_int in E. lia.
          * replace (n + S i)%nat with (S n + i)%nat by lia.
            apply IH2. exact Hx. }
    destruct (G 0%nat) as [G1 G2]. split; [exact G1|exact G2].
Qed.

(** ** find_key returns a key *)

Lemma find_key_loop_key (f : callback3) (obj : value) (h : heap) :
  forall ps s k s',
    find_key_loop
      (map (fun '(k, v) => fun s =>
              do (r, s') <- f v k obj h s; Ok ((r, v, k, obj), s')) ps) s h
    = Ok (k, s') ->
    k = VNone \/ In k (map fst ps).
Proof.
  induction ps as [|[k0 v0] r IH]; intros s k s' H.
  - left. simpl in H. congruence.
  - cbn [map find_key_loop] in H.
    destruct (f v0 k0 obj h s) as [[x s1]|e]; [|discriminate].
    rewrite !bind_ok in H. cbn [item_result item_key] in H.
    destruct (truthy h x).
    + right. left. simpl. congruence.
    + destruct (IH _ _ _ H) as [Hn|Hin]; [left; exact Hn|right; right; exact Hin].
Qed.

(** X17: whatever the callback, a result of [find_key] is [None] or a key
    of [obj], that is a key for which [has] answers [True]. *)
Theorem find_key_returns_a_key (obj callback k : value) (h : heap)
  (s s' : State) :
  (forall a d, obj = VRef a -> h !! a = Some (ODict d) -> dict_wf d) ->
  find_key obj callback h s = Ok (k, s') ->
  k = VNone \/ has obj k h = Ok true.
Proof.
  intros Hobj H. unfold find_key, iter_callback in H.
  destruct (iterate h obj) as [ps|e] eqn:Hit; [|discriminate].
  rewrite bind_ok in H.
  destruct (make_callback h callback) as [f|e]; [|discriminate].
  rewrite !bind_ok in H.
  destruct (find_key_loop_key f obj h ps s k s' H) as [Hn|Hin];
    [left; exact Hn|right].
  unfold has. rewrite Hit, bind_ok. f_equal.
  apply existsb_exists. exists k. split; [exact Hin|].
  apply same_key_refl.
  destruct (iterate_ok_wf obj ps h Hit Hobj) as [Hh _].
  rewrite List.Forall_forall in Hh. apply Hh. exact Hin.
Qed.

(** ** clone_deep keeps the sharing of the original *)

Lemma clone_deep_run (a : nat) (o : object) (h : heap) (s : State) :
  heap_ok h ->
  h !! a = Some o ->
  (length h <= recursion_limit)%nat ->
  exists m h1,
    clone_deep (VRef a) VNone h s
    = Ok (VRef (length h1), h1 ++ [rename_obj m o], s)
    /\ copy_inv h (fun _ => False) m h1
    /\ Forall (in_memo m) (refs_of o).
Proof.
  intros Hok Ha Hlim.
  pose proof (lookup_lt_Some h a o Ha) as Hlt.
  destruct (heap_ok_lookup h a o Hok Ha) as [Hrefs Hwf].
  destruct (deepcopy_ok h Hok recursion_limit (VRef a) [] h (fun _ => False))
    as (v' & m & h1 & E & I & _ & Hv' & Hin);
    [apply copy_inv_start|exact Hlt|simpl; lia|].
  simpl in Hv', Hin. destruct (memo_get m a) as [b0|] eqn:Hm; [|congruence].
  subst v'.
  destruct (inv_done _ _ _ _ I a b0 Hm) as (o2 & Ha2 & Hb0 & Hin2);
    [intros []|].
  assert (o2 = o) by congruence. subst o2.
  exists m, h1. split; [|split; [exact I|exact Hin2]].
  unfold clone_deep, clone. rewrite E. rewrite !bind_ok.
  apply clone_rebuild; [exact Hb0|].
  destruct o as [l|d]; [exact Logic.I|]. apply rename_obj_wf. exact Hwf.
Qed.

(** X18: a deep clone has the sharing of the original.  In
    [clone_deep(x)] the scalar elements of [x] are kept, every container
    element is replaced by a new object, and two elements of the clone are
    the same object exactly when the two elements of [x] at these places
    are.  No element of the clone is the clone itself, also when [x]
    contains itself. *)
Theorem clone_deep_keeps_sharing (a : nat) (o : object) (h : heap)
  (s : State) :
  heap_ok h ->
  h !! a = Some o ->
  (length h <= recursion_limit)%nat ->
  exists r h' o',
    clone_deep (VRef a) VNone h s = Ok (VRef r, h', s)
    /\ h' !! r = Some o'
    /\ length (refs_of o') = length (refs_of o)
    /\ (forall i x, refs_of o !! i = Some x -> is_scalar x = true ->
                    refs_of o' !! i = Some x)
    /\ (forall i c, refs_of o !! i = Some (VRef c) ->
                    exists b, refs_of o' !! i = Some (VRef b)
                              /\ (length h <= b)%nat /\ (b < r)%nat)
    /\ (forall i j c c' b b',
           refs_of o !! i = Some (VRef c) ->
           refs_of o !! j = Some (VRef c') ->
           refs_of o' !! i = Some (VRef b) ->
           refs_of o' !! j = Some (VRef b') ->
           (b = b' <-> c = c')).
Proof.
  intros Hok Ha Hlim.
  destruct (clone_deep_run a o h s Hok Ha Hlim) as (m & h1 & E & I & Hin).
  exists (length h1), (h1 ++ [rename_obj m o]), (rename_obj m o).
  assert (Hmemo : forall i c, refs_of o !! i = Some (VRef c) ->
                              exists b, memo_get m c = Some b).
  { intros i c Hi. pose proof (Forall_lookup_1 _ _ _ _ Hin Hi) as Hc.
    simpl in Hc. destruct (memo_get m c) as [b|]; [exists b; reflexivity|].
    exfalso. apply Hc. reflexivity. }
  split; [exact E|]. split; [|split; [|split; [|split]]].
  - rewrite lookup_app_r by lia. rewrite Nat.sub_diag. reflexivity.
  - rewrite refs_of_rename_obj. apply length_map.
  - intros i x Hi Hx. rewrite refs_of_rename_obj, lookup_map, Hi.
    destruct x; try reflexivity. discriminate.
  - intros i c Hi. destruct (Hmemo i c Hi) as [b Hb]. exists b.
    rewrite refs_of_rename_obj, lookup_map, Hi. simpl. rewrite Hb.
    split; [reflexivity|].
    destruct (inv_range _ _ _ _ I c b Hb) as (_ & H1 & H2). lia.
  - intros i j c c' b b' Hi Hj Hi' Hj'.
    rewrite refs_of_rename_obj, lookup_map in Hi', Hj'.
    rewrite Hi in Hi'. rewrite Hj in Hj'. simpl in Hi', Hj'.
    destruct (Hmemo i c Hi) as [x Hx]. destruct (Hmemo j c' Hj) as [y Hy].
    rewrite Hx in Hi'. rewrite Hy in Hj'.
    injection Hi' as <-. injection Hj' as <-. split.
    + intros <-. apply (inv_inj _ _ _ _ I c c' x); assumption.
    + intros <-. congruence.
Qed.

(** ** update on cyclic containers *)

(** X19: [update] does not detect cycles.  When [obj] holds itself under
    the key [k] and the first entry of [source] holds [source] under [k],
    the recursion never ends: whatever the recursion limit, [update] and
    [merge] raise [RecursionError] and return nothing. *)
Theorem update_cyclic_raises (a b : nat) (k : value)
  (d e : list (value * value)) (h : heap) (s : State) :
  h !! a = Some (ODict d) ->
  dict_get d k = Some (VRef a) ->
  h !! b = Some (ODict ((k, VRef b) :: e)) ->
  (forall depth,
      update depth (VRef a) (VRef b) VNone h s = Raise RecursionError)
  /\ merge (VRef a) [VRef b] [] h s = Raise RecursionError.
Proof.
  intros Ha Hk Hb.
  assert (G : forall depth,
             update depth (VRef a) (VRef b) VNone h s = Raise RecursionError).
  { induction depth as [|n IH]; [reflexivity|].
    rewrite update_unfold. unfold iterate. rewrite Hb, bind_ok.
    rewrite update_loop_cons.
    assert (Hg : get_item h (VRef a) k VNone = VRef a).
    { unfold get_item. rewrite Ha, Hk. reflexivity. }
    rewrite update_entry_recurse; [|reflexivity|].
    - rewrite Hg, IH. reflexivity.
    - rewrite Hg. unfold same_shape, truthy, isinstance_list, isinstance_dict.
      rewrite Ha, Hb. reflexivity. }
  split; [exact G|].
  unfold merge. simpl kargs_get. cbn [merge_sources]. rewrite G. reflexivity.
Qed.

(** ** Sources are processed from left to right *)

Lemma merge_sources_app (obj callback : value) (xs ys : list value) :
  forall h s,
    merge_sources obj callback (xs ++ ys) h s =
    do (h1, s1) <- merge_sources obj callback xs h s;
    merge_sources obj callback ys h1 s1.
Proof.
  induction xs as [|x r IH]; intros h s; [reflexivity|].
  cbn [merge_sources app].
  destruct (update recursion_limit obj x callback h s) as [[[o h1] s1]|e];
    [|reflexivity].
  rewrite !bind_ok. apply IH.
Qed.

Lemma defaults_sources_app (obj : value) (xs ys : list value) :
  forall h,
    defaults_sources obj (xs ++ ys) h =
    do h1 <- defaults_sources obj xs h; defaults_sources obj ys h1.
Proof.
  induction xs as [|x r IH]; intros h; [reflexivity|].
  cbn [defaults_sources app].
  destruct (iteritems h x) as [items|e]; [|reflexivity].
  rewrite !bind_ok.
  destruct (defaults_items obj items h) as [h1|e]; [|reflexivity].
  rewrite !bind_ok. apply IH.
Qed.

(** X20: [merge] and [defaults] take their sources from left to right, one
    after the other: a call with the sources [xs] followed by [ys] is a
    call with [xs] followed by a call with [ys] on the result, and raises
    where the first of the two raises. *)
Theorem merge_defaults_sequential (obj : value) (xs ys : list value)
  (kargs : list (string * value)) (h : heap) (s : State) :
  merge obj (xs ++ ys) kargs h s =
  (do (r, h1, s1) <- merge obj xs kargs h s; merge r ys kargs h1 s1)
  /\ defaults obj (xs ++ ys) h =
     (do (r, h1) <- defaults obj xs h; defaults r ys h1).
Proof.
  split.
  - unfold merge. cbv zeta. rewrite merge_sources_app.
    destruct (merge_sources obj (kargs_get kargs "callback") xs h s)
      as [[h1 s1]|e]; [|reflexivity].
    rewrite !bind_ok. reflexivity.
  - unfold defaults. rewrite defaults_sources_app.
    destruct (defaults_sources obj xs h) as [h1|e]; [|reflexivity].
    rewrite !bind_ok. reflexivity.
Qed.

(** ** find_key without a callback *)

(** X21: without a callback [find_key] tests the values themselves: it
    returns the key of the first entry of [obj] whose value is truthy, and
    [None] when there is none; nothing is called. *)
Theorem find_key_without_callback (obj : value) (ps : list (value * value))
  (h : heap) (s : State) :
  iterate h obj = Ok ps ->
  find_key obj VNone h s
  = Ok (match List.find (fun e => truthy h (snd e)) ps with
        | Some e => fst e
        | None => VNone
        end, s).
Proof.
  intros Hit. unfold find_key, iter_callback. rewrite Hit, bind_ok.
  cbn [make_callback]. rewrite !bind_ok.
  clear Hit. induction ps as [|[k v] r IH]; [reflexivity|].
  cbn [map find_key_loop List.find snd fst]. rewrite !bind_ok.
  cbn [item_result item_key]. destruct (truthy h v); [reflexivity|exact IH].
Qed.

End Objects.

(** * Worked examples *)



(** [merge({'a': [1, 2]}, {'a': [9]})] on the sample store. *)
Lemma merge_lists_by_index_witness :
  exists h',
    merge sample_call 1000 (VRef 0) [VRef 2] [] sample_store 0%nat
    = Ok (VRef 0, h', 0%nat)
    /\ h' !! 0%nat = Some (ODict [(VStr "a", VRef 1)])
    /\ h' !! 1%nat = Some (OList [VInt 9; VInt 2]).
Proof.
  destruct (merge_lists_by_index sample_call 1000 0 1 2 3 sample_store 0%nat)
    as (h' & H1 & H2 & H3 & _); [lia|reflexivity..|].
  exists h'. auto.
Defined.


(** Over [[0, '', None, False, 7]] with a callback returning the value,
    [for_in] makes four calls: it goes on after [0], [''] and [None], and
    stops at [False]. *)
Lemma for_in_stops_at_first_False_witness :
  for_in sample_call sample_argcount 1000 (VRef 0) (VFunc 1) sample_falsy
    0%nat
  = Ok (VRef 0, 4%nat).
Proof.
  refine (proj1 (for_in_stops_at_first_False sample_call sample_argcount 1000
                   (VRef 0) (VFunc 1) sample_falsy 0%nat 4%nat _ 4%nat _
                   eq_refl eq_refl eq_refl _ _)).
  - repeat constructor.
  - right. eexists. split; reflexivity.
Defined.

(** On [{'a': 0, 'b': 1, 'c': 1}] without a callback, [find_last_key]
    returns ['b'], the first key with a truthy value, not ['c']. *)
Lemma find_last_key_is_find_key_witness :
  find_last_key sample_call sample_argcount 1000 (VRef 0) VNone sample_abc
    0%nat
  = Ok (VStr "b", 0%nat).
Proof.
  refine (proj1 (proj2 (find_last_key_is_find_key sample_call sample_argcount
                          1000 (VRef 0) VNone sample_abc 0%nat)
                   _ 2%nat _ 0%nat eq_refl eq_refl eq_refl _)
            (VInt 1, VInt 1, VStr "b", VRef 0) eq_refl eq_refl).
  repeat constructor.
Defined.

(** [assign(obj)] raises, [assign(obj, callback=f)] returns [obj]. *)
Lemma assign_no_sources_witness :
  assign sample_call (VRef 0) [] [] sample_store 0%nat = Raise IndexError
  /\ assign sample_call (VRef 0) [] [("callback"%string, VFunc 0)]
       sample_store 0%nat
     = Ok (VRef 0, sample_store, 0%nat).
Proof.
  split.
  - apply (proj1 (assign_no_sources sample_call (VRef 0) [] sample_store
                    0%nat)).
    reflexivity.
  - apply (proj2 (assign_no_sources sample_call (VRef 0)
                    [("callback"%string, VFunc 0)] sample_store 0%nat)).
    discriminate.
Defined.

Lemma sample_store_ok : heap_ok sample_store.
Proof.
  unfold heap_ok, sample_store, object_ok, dict_wf. simpl.
  repeat (constructor; [split; [repeat constructor; simpl; lia|]|]);
    try exact I; try (repeat constructor; fail).
Qed.

(** [clone] and [clone_deep] of [{'a': [1, 2]}] in the sample store, which
    holds four objects: the clones live at new addresses, and so does the
    list inside the deep clone. *)
Lemma clone_is_independent_copy_witness :
  (exists r h',
      clone sample_call 1000 (VRef 0) false VNone sample_store 0%nat
      = Ok (VRef r, h', 0%nat)
      /\ (4 <= r)%nat
      /\ h' !! r = Some (ODict [(VStr "a", VRef 1)]))
  /\ (exists r h',
         clone_deep sample_call 1000 (VRef 0) VNone sample_store 0%nat
         = Ok (VRef r, h', 0%nat)
         /\ shape 2 h' (VRef r)
            = TDict [(VStr "a", TList [TLeaf (VInt 1); TLeaf (VInt 2)])]
         /\ forall c, reachable h' (VRef r) c -> (4 <= c)%nat).
Proof.
  destruct (clone_is_independent_copy sample_call 1000 0
              (ODict [(VStr "a", VRef 1)]) sample_store 0%nat
              sample_store_ok eq_refl) as [Hshallow Hdeep].
  split.
  - destruct Hshallow as (r & h' & H1 & H2 & H3 & _).
    exists r, h'. auto.
  - destruct Hdeep as (r & h' & H1 & H2 & _ & H3 & _); [simpl; lia|].
    exists r, h'. split; [exact H1|]. split; [|exact H3].
    rewrite H2. reflexivity.
Defined.

(** [invert(invert({'a': 1, 'b': 2}))] gives the entries back, and
    [invert({'a': 0, 'b': 1, 'c': 1})] maps [1] to ['c']. *)
Lemma invert_involutive_and_last_wins_witness :
  (exists h1 h2 r1 r2,
      invert (VRef 0) sample_ab = Ok (VRef r1, h1)
      /\ invert (VRef r1) h1 = Ok (VRef r2, h2)
      /\ h2 !! r2 = Some (ODict [(VStr "a", VInt 1); (VStr "b", VInt 2)]))
  /\ exists d,
      invert (VRef 0) sample_abc = Ok (VRef 1, sample_abc ++ [ODict d])
      /\ dict_get d (VInt 1) = Some (VStr "c").
Proof.
  split.
  - destruct (invert_involutive_and_last_wins 0
                [(VStr "a", VInt 1); (VStr "b", VInt 2)] sample_ab eq_refl)
      as [Hround _].
    + split; simpl; repeat constructor.
    + repeat constructor.
    + destruct Hround as (h1 & h2 & r1 & r2 & H1 & H2 & H3 & _).
      * simpl. repeat constructor.
      * exists h1, h2, r1, r2. auto.
  - destruct (invert_involutive_and_last_wins 0
                [(VStr "a", VInt 0); (VStr "b", VInt 1); (VStr "c", VInt 1)]
                sample_abc eq_refl)
      as [_ (d & Hd & Hlast)].
    + split; simpl; repeat constructor.
    + repeat constructor.
    + exists d. split; [exact Hd|].
      apply (Hlast [(VStr "a", VInt 0); (VStr "b", VInt 1)] []
               (VStr "c") (VInt 1) eq_refl).
      constructor.
Defined.

(** With the test "the key is ['a']", [pick] keeps [{'a': 1}] of
    [{'a': 1, 'b': 2}] and [omit] keeps [{'b': 2}]. *)
Lemma pick_omit_partition_witness :
  exists s1' s2',
    pick sample_call 1000 (VRef 0) (VFunc 2) [] sample_ab 0%nat
    = Ok (VRef 1, sample_ab ++ [ODict [(VStr "a", VInt 1)]], s1')
    /\ omit sample_call 1000 (VRef 0) (VFunc 2) [] sample_ab 0%nat
       = Ok (VRef 1, sample_ab ++ [ODict [(VStr "b", VInt 2)]], s2').
Proof.
  destruct (pick_omit_partition sample_call 1000 2 (VRef 0) []
              [(VStr "a", VInt 1); (VStr "b", VInt 2)] sample_ab 0%nat 0%nat
              eq_refl)
    as (picked & omitted & s1' & s2' & Hp & Ho & -> & -> & _).
  - intros a d [= <-] [= <-]. split; simpl; repeat constructor.
  - intros args s s'. reflexivity.
  - exists s1', s2'. split; [exact Hp|exact Ho].
Defined.

(** ** Examples for the further properties *)

Ltac sample_wf := split; simpl; repeat constructor.

(** X1: [assign({'a': 1}, {'a': 2, 'b': 3}, {'b': 4, 'c': 5})]. *)
Lemma assign_last_source_wins_witness :
  exists d',
    assign sample_call (VRef 0) [VRef 1; VRef 2] [] sample_sources 0%nat
    = Ok (VRef 0, <[0%nat := ODict d']> sample_sources, 0%nat)
    /\ dict_get d' (VStr "a") = Some (VInt 2)
    /\ dict_get d' (VStr "b") = Some (VInt 4)
    /\ dict_get d' (VStr "c") = Some (VInt 5).
Proof.
  destruct (assign_last_source_wins sample_call 0 1 [2%nat]
              [(VStr "a", VInt 2); (VStr "b", VInt 3)]
              [[(VStr "b", VInt 4); (VStr "c", VInt 5)]]
              [(VStr "a", VInt 1)] sample_sources 0%nat eq_refl)
    as (d' & H1 & H2).
  - repeat (constructor; [split; [lia|split; [reflexivity|sample_wf]]|]).
    constructor.
  - exists d'. split; [exact H1|]. rewrite !H2. repeat split.
Defined.

(** X2: [defaults({'a': 1}, {'a': 2, 'b': 3}, {'b': 4, 'c': 5})]. *)
Lemma defaults_first_value_wins_witness :
  exists extra,
    defaults (VRef 0) [VRef 1; VRef 2] sample_sources
    = Ok (VRef 0,
          <[0%nat := ODict ([(VStr "a", VInt 1)] ++ extra)]> sample_sources)
    /\ dict_get ([(VStr "a", VInt 1)] ++ extra) (VStr "a") = Some (VInt 1)
    /\ dict_get ([(VStr "a", VInt 1)] ++ extra) (VStr "b") = Some (VInt 3)
    /\ dict_get ([(VStr "a", VInt 1)] ++ extra) (VStr "c") = Some (VInt 5).
Proof.
  destruct (defaults_first_value_wins 0 [1%nat; 2%nat]
              [[(VStr "a", VInt 2); (VStr "b", VInt 3)];
               [(VStr "b", VInt 4); (VStr "c", VInt 5)]]
              [(VStr "a", VInt 1)] sample_sources eq_refl)
    as (extra & H1 & H2 & _).
  - repeat (constructor; [split; [lia|split; [reflexivity|sample_wf]]|]).
    constructor.
  - exists extra. split; [exact H1|]. rewrite !H2. repeat split.
Defined.

(** X3: [assign({'a': 1}, {'a': 2, 'b': 3})] leaves the source alone. *)
Lemma assign_changes_obj_only_witness :
  assign sample_call (VRef 0) [VRef 1] [] sample_sources 0%nat
  = Ok (VRef 0,
        [ODict [(VStr "a", VInt 2); (VStr "b", VInt 3)];
         ODict [(VStr "a", VInt 2); (VStr "b", VInt 3)];
         ODict [(VStr "b", VInt 4); (VStr "c", VInt 5)]], 0%nat)
  /\ length [ODict [(VStr "a", VInt 2); (VStr "b", VInt 3)];
             ODict [(VStr "a", VInt 2); (VStr "b", VInt 3)];
             ODict [(VStr "b", VInt 4); (VStr "c", VInt 5)]]
     = length sample_sources
  /\ [ODict [(VStr "a", VInt 2); (VStr "b", VInt 3)];
      ODict [(VStr "a", VInt 2); (VStr "b", VInt 3)];
      ODict [(VStr "b", VInt 4); (VStr "c", VInt 5)]] !! 1%nat
     = sample_sources !! 1%nat.
Proof.
  split; [reflexivity|].
  destruct (assign_changes_obj_only sample_call (VRef 0) [VRef 1] []
              sample_sources
              [ODict [(VStr "a", VInt 2); (VStr "b", VInt 3)];
               ODict [(VStr "a", VInt 2); (VStr "b", VInt 3)];
               ODict [(VStr "b", VInt 4); (VStr "c", VInt 5)]]
              0%nat 0%nat (VRef 0) eq_refl) as (_ & H2 & H3).
  split; [exact H2|]. apply H3. discriminate.
Defined.

(** X4: a callable in the last place is the callback. *)
Lemma assign_trailing_callable_witness :
  assign sample_call (VRef 0) ([VRef 1] ++ [VFunc 0]) [] sample_sources 0%nat
  = assign sample_call (VRef 0) [VRef 1] [("callback"%string, VFunc 0)]
      sample_sources 0%nat.
Proof.
  exact (assign_trailing_callable sample_call (VRef 0) [VRef 1] [] 0
           sample_sources 0%nat eq_refl).
Defined.

(** X5: [keys], [values] and [pairs] of [{'a': 1, 'b': 2}]. *)
Lemma keys_values_pairs_agree_witness :
  exists ks vs xs hp rp,
    keys (VRef 0) sample_ab = Ok (VRef 1, sample_ab ++ [OList ks])
    /\ values (VRef 0) sample_ab = Ok (VRef 1, sample_ab ++ [OList vs])
    /\ pairs_ (VRef 0) sample_ab = Ok (VRef rp, hp)
    /\ hp !! rp = Some (OList xs)
    /\ length xs = length ks.
Proof.
  destruct (keys_values_pairs_agree (VRef 0)
              [(VStr "a", VInt 1); (VStr "b", VInt 2)] sample_ab eq_refl)
    as (ks & vs & xs & hp & rp & H1 & H2 & H3 & H4 & _ & H6 & _).
  exists ks, vs, xs, hp, rp. auto.
Defined.

(** X6: [has({'a': 1, 'b': 2}, 'a')]. *)
Lemma has_tells_presence_witness :
  has (VRef 0) (VStr "a") sample_ab = Ok true.
Proof.
  exact (proj1 (has_tells_presence 0
                  (ODict [(VStr "a", VInt 1); (VStr "b", VInt 2)])
                  (VStr "a") sample_ab eq_refl)).
Defined.

(** X7: [functions_({'f': <function 0>, 'n': 1})]. *)
Lemma functions_lists_callable_keys_witness :
  exists ks,
    functions_ (VRef 0) sample_funcs
    = Ok (VRef 2, sample_funcs ++ [OList ks])
    /\ In (VStr "f") ks.
Proof.
  destruct (functions_lists_callable_keys 0
              (ODict [(VStr "f", VFunc 0); (VStr "n", VInt 1)])
              sample_funcs eq_refl) as (ks & H1 & H2).
  exists ks. split; [exact H1|]. apply H2. exists (VFunc 0).
  split; [left; reflexivity|reflexivity].
Defined.

(** X8: [map_values({'a': 1, 'b': 2})] without a callback and with the
    function that returns [0]. *)
Lemma map_values_same_keys_witness :
  map_values sample_call sample_argcount 1000 (VRef 0) VNone sample_ab 0%nat
  = Ok (VRef 1,
        sample_ab ++ [ODict [(VStr "a", VInt 1); (VStr "b", VInt 2)]], 0%nat)
  /\ exists s',
      map_values sample_call sample_argcount 1000 (VRef 0) (VFunc 0)
        sample_ab 0%nat
      = Ok (VRef 1,
            sample_ab ++ [ODict [(VStr "a", VInt 0); (VStr "b", VInt 0)]],
            s').
Proof.
  destruct (map_values_same_keys sample_call sample_argcount 1000 (VRef 0) 0
              [(VStr "a", VInt 1); (VStr "b", VInt 2)] sample_ab 0%nat
              eq_refl) as [H1 H2].
  - intros a d [= <-] [= <-]. sample_wf.
  - split; [exact H1|]. destruct H2 as [s' H2]; [reflexivity|].
    exists s'. exact H2.
Defined.

(** X9: [update([1, 2, 3], [9])]. *)
Lemma update_list_by_position_witness :
  update sample_call 1 (VRef 0) (VRef 1) VNone sample_lists 0%nat
  = Ok (VRef 0, [OList [VInt 9; VInt 2; VInt 3]; OList [VInt 9]], 0%nat).
Proof.
  refine (update_list_by_position sample_call 0 0 1
            [VInt 1; VInt 2; VInt 3] [VInt 9] sample_lists 0%nat
            eq_refl eq_refl _).
  repeat constructor.
Defined.

(** X10: [update], [assign] and [merge] of [{'a': 2, 'b': 3}] into
    [{'a': 1}]. *)
Lemma update_flat_is_assign_witness :
  update sample_call 1 (VRef 0) (VRef 1) VNone sample_sources 0%nat
  = assign sample_call (VRef 0) [VRef 1] [] sample_sources 0%nat
  /\ merge sample_call 1000 (VRef 0) [VRef 1] [] sample_sources 0%nat
     = assign sample_call (VRef 0) [VRef 1] [] sample_sources 0%nat.
Proof.
  destruct (update_flat_is_assign sample_call 1000 0 0 1
              [(VStr "a", VInt 1)] [(VStr "a", VInt 2); (VStr "b", VInt 3)]
              sample_sources 0%nat eq_refl eq_refl)
    as (H1 & H2 & H3 & _).
  - sample_wf.
  - repeat constructor.
  - rewrite H1, H2, H3 by lia. split; reflexivity.
Defined.

(** X11: [update({'a': [1, 2]}, {'a': [9]})] returns its first argument and
    the store keeps its size. *)
Lemma update_in_place_witness :
  update sample_call 2 (VRef 0) (VRef 2) VNone sample_store 0%nat
  = Ok (VRef 0,
        [ODict [(VStr "a", VRef 1)]; OList [VInt 9; VInt 2];
         ODict [(VStr "a", VRef 3)]; OList [VInt 9]], 0%nat)
  /\ length [ODict [(VStr "a", VRef 1)]; OList [VInt 9; VInt 2];
             ODict [(VStr "a", VRef 3)]; OList [VInt 9]]
     = length sample_store.
Proof.
  split; [reflexivity|].
  exact (proj1 (proj2 (update_in_place sample_call 2 (VRef 0) (VRef 2) VNone
                         (VRef 0) sample_store
                         [ODict [(VStr "a", VRef 1)]; OList [VInt 9; VInt 2];
                          ODict [(VStr "a", VRef 3)]; OList [VInt 9]]
                         0%nat 0%nat eq_refl))).
Defined.

(** X12: [merge({}, {'k': {'x': 1}}, {'k': {'y': 2}})]: the inner dict of
    the first source becomes [{'x': 1, 'y': 2}]. *)
Lemma merge_changes_earlier_source_witness :
  exists h',
    merge sample_call 1000 (VRef 0) [VRef 2; VRef 4] [] sample_nested 0%nat
    = Ok (VRef 0, h', 0%nat)
    /\ h' !! 0%nat = Some (ODict [(VStr "k", VRef 1)])
    /\ h' !! 1%nat = Some (ODict [(VStr "x", VInt 1); (VStr "y", VInt 2)]).
Proof.
  destruct (merge_changes_earlier_source sample_call 1000 0 2 4 1 3
              (VStr "k") [] [(VStr "x", VInt 1)] [(VStr "y", VInt 2)]
              sample_nested 0%nat)
    as (h' & H1 & H2 & H3 & _);
    [lia|reflexivity|reflexivity|reflexivity|reflexivity|reflexivity
    |reflexivity|reflexivity|discriminate|sample_wf|repeat constructor
    |repeat (constructor; [simpl; lia|]); constructor|].
  exists h'. split; [exact H1|]. split; [exact H2|exact H3].
Defined.

(** X13: [clone({'a': 1, 'b': 2}, callback=f)] with the function that
    returns [0]. *)
Lemma clone_applies_callback_witness :
  exists s',
    clone sample_call 1000 (VRef 0) false (VFunc 0) sample_ab 0%nat
    = Ok (VRef 2,
          (sample_ab ++ [ODict [(VStr "a", VInt 1); (VStr "b", VInt 2)]])
          ++ [ODict [(VStr "a", VInt 0); (VStr "b", VInt 0)]], s').
Proof.
  destruct (clone_applies_callback sample_call 1000 0 0
              (ODict [(VStr "a", VInt 1); (VStr "b", VInt 2)]) sample_ab
              0%nat eq_refl) as [s' H].
  - sample_wf.
  - reflexivity.
  - exists s'. exact H.
Defined.

(** X14: [invert({'a': [1, 2]})] raises, [invert({'a': 1, 'b': 2})] has
    the key [1]. *)
Lemma invert_needs_hashable_values_witness :
  invert (VRef 0) sample_store = Raise TypeError
  /\ exists d,
      invert (VRef 0) sample_ab = Ok (VRef 1, sample_ab ++ [ODict d])
      /\ dict_get d (VInt 1) <> None.
Proof.
  split.
  - apply (proj1 (invert_needs_hashable_values (VRef 0)
                    [(VStr "a", VRef 1)] sample_store eq_refl)).
    constructor. reflexivity.
  - destruct (proj2 (invert_needs_hashable_values (VRef 0)
                       [(VStr "a", VInt 1); (VStr "b", VInt 2)] sample_ab
                       eq_refl))
      as (d & H1 & _ & H3 & _); [repeat constructor|].
    exists d. split; [exact H1|]. apply (H3 (VStr "a")). left. reflexivity.
Defined.

(** X15: [pick({'a': 0, 'b': 1, 'c': 1}, 'a', 'c')] and
    [omit({'a': 0, 'b': 1, 'c': 1}, 'a', 'c')]. *)
Lemma pick_omit_by_name_witness :
  pick sample_call 1000 (VRef 0) (VStr "a") [VStr "c"] sample_abc 0%nat
  = Ok (VRef 1,
        sample_abc ++ [ODict [(VStr "a", VInt 0); (VStr "c", VInt 1)]],
        0%nat)
  /\ omit sample_call 1000 (VRef 0) (VStr "a") [VStr "c"] sample_abc 0%nat
     = Ok (VRef 1, sample_abc ++ [ODict [(VStr "b", VInt 1)]], 0%nat).
Proof.
  refine (pick_omit_by_name sample_call 1000 (VRef 0) (VStr "a") [VStr "c"]
            [VStr "a"; VStr "c"]
            [(VStr "a", VInt 0); (VStr "b", VInt 1); (VStr "c", VInt 1)]
            sample_abc 0%nat eq_refl _ eq_refl eq_refl).
  intros a d [= <-] [= <-]. sample_wf.
Defined.

(** X16: [pick([1, 2, 3])] and [omit([1, 2, 3])]. *)
Lemma omit_nothing_copies_all_witness :
  pick sample_call 1000 (VRef 0) VNone [] sample_lists 0%nat
  = Ok (VRef 2, sample_lists ++ [ODict []], 0%nat)
  /\ omit sample_call 1000 (VRef 0) VNone [] sample_lists 0%nat
     = Ok (VRef 2,
           sample_lists
           ++ [ODict [(VInt 0, VInt 1); (VInt 1, VInt 2); (VInt 2, VInt 3)]],
           0%nat).
Proof.
  destruct (omit_nothing_copies_all sample_call 1000 (VRef 0)
              [(VInt 0, VInt 1); (VInt 1, VInt 2); (VInt 2, VInt 3)]
              sample_lists 0%nat) as (H1 & H2 & _).
  - lia.
  - reflexivity.
  - intros a d [= <-] [=].
  - split; [exact H1|exact H2].
Defined.

(** X17: on [{'a': 1, 'b': 2}] with the test "the key is ['a']",
    [find_key] returns ['a'], a key of the dict. *)
Lemma find_key_returns_a_key_witness :
  find_key sample_call sample_argcount 1000 (VRef 0) (VFunc 2) sample_ab
    0%nat
  = Ok (VStr "a", 1%nat)
  /\ has (VRef 0) (VStr "a") sample_ab = Ok true.
Proof.
  split; [reflexivity|].
  destruct (find_key_returns_a_key sample_call sample_argcount 1000 (VRef 0)
              (VFunc 2) (VStr "a") sample_ab 0%nat 1%nat) as [H|H].
  - intros a d [= <-] [= <-]. sample_wf.
  - reflexivity.
  - discriminate H.
  - exact H.
Defined.

Lemma sample_shared_ok : heap_ok sample_shared.
Proof.
  unfold heap_ok, sample_shared, object_ok. simpl.
  repeat (constructor; [split; [repeat constructor; simpl; lia|exact I]|]).
  constructor.
Qed.

(** X18: the deep clone of [x = [y, y, 5, x]] holds one new list in its
    first two places and [5] in the third. *)
Lemma clone_deep_keeps_sharing_witness :
  exists r h' o' b,
    clone_deep sample_call 1000 (VRef 0) VNone sample_shared 0%nat
    = Ok (VRef r, h', 0%nat)
    /\ h' !! r = Some o'
    /\ refs_of o' !! 0%nat = Some (VRef b)
    /\ refs_of o' !! 1%nat = Some (VRef b)
    /\ refs_of o' !! 2%nat = Some (VInt 5)
    /\ (2 <= b)%nat /\ (b < r)%nat.
Proof.
  destruct (clone_deep_keeps_sharing sample_call 1000 0
              (OList [VRef 1; VRef 1; VInt 5; VRef 0]) sample_shared 0%nat
              sample_shared_ok eq_refl)
    as (r & h' & o' & H1 & H2 & _ & H4 & H5 & H6); [simpl; lia|].
  destruct (H5 0%nat 1%nat eq_refl) as (b & Hb & Hr1 & Hr2).
  destruct (H5 1%nat 1%nat eq_refl) as (b' & Hb' & _).
  assert (E : b = b')
    by (apply (H6 0%nat 1%nat 1%nat 1%nat b b' eq_refl eq_refl Hb Hb');
        reflexivity).
  subst b'. exists r, h', o', b.
  split; [exact H1|]. split; [exact H2|]. split; [exact Hb|].
  split; [exact Hb'|]. split; [exact (H4 2%nat (VInt 5) eq_refl eq_refl)|].
  split; [exact Hr1|exact Hr2].
Defined.

(** X19: merging two dicts that hold themselves under the same key. *)
Lemma update_cyclic_raises_witness :
  merge sample_call 1000 (VRef 0) [VRef 1] [] sample_cyclic 0%nat
  = Raise RecursionError.
Proof.
  exact (proj2 (update_cyclic_raises sample_call 1000 0 1 (VStr "k")
                  [(VStr "k", VRef 0)] [] sample_cyclic 0%nat
                  eq_refl eq_refl eq_refl)).
Defined.

(** X21: on [{'a': 0, 'b': 1, 'c': 1}] without a callback, [find_key]
    returns ['b']. *)
Lemma find_key_without_callback_witness :
  find_key sample_call sample_argcount 1000 (VRef 0) VNone sample_abc 0%nat
  = Ok (VStr "b", 0%nat).
Proof.
  exact (find_key_without_callback sample_call sample_argcount 1000 (VRef 0)
           [(VStr "a", VInt 0); (VStr "b", VInt 1); (VStr "c", VInt 1)]
           sample_abc 0%nat eq_refl).
Defined.
